(** * ResumeStudio: the resume-drafting workflow of [studio/ResumeStudio.py]

    The Python module declares two state schemas, a handful of node and
    routing functions and a graph wiring them together.  The node and routing
    functions are embedded one by one; the language-model client is an oracle
    whose requests are logged; the graph declarations are data executed by a
    small superstep interpreter. *)

From Stdlib Require Import String Ascii List ZArith Bool Lia.
Import ListNotations.
Open Scope string_scope.
Open Scope list_scope.

(** ** Values exchanged with the language model *)

(** [class Qualifications(BaseModel)] *)
Record Qualifications := {
  required : list string;
  preferred : list string
}.

(** [SystemMessage(content=...)] and [HumanMessage(content=...)] *)
Inductive message :=
| SystemMessage (content : string)
| HumanMessage (content : string).

(** One call to the model: [llm.invoke(msgs)] or
    [llm.with_structured_output(Qualifications).invoke(msgs)]. *)
Inductive request :=
| Invoke (msgs : list message)
| InvokeStructured (msgs : list message).

(** The chat model [llm].  Its answers are not determined by the program:
    they are an oracle of the calls made so far and of the messages sent. *)
Record ChatModel := {
  content_of : list request -> list message -> string;
  structured_of : list request -> list message -> Qualifications
}.

(** ** Exceptions and the monad of node bodies *)

(** Python's [KeyError], raised by [state[key]] on a missing key, and the
    errors of the engine. *)
Inductive error :=
| KeyError (key : string)
| NodeExecutionError (node : string) (cause : error)
| RoutingError (node : string) (returned : string)
| GraphDefinitionError (name : string)
| GraphRecursionError.

(** A computation threads the log of model requests and may raise. *)
Definition M (A : Type) : Type := list request -> (error + A) * list request.

Definition ret {A} (a : A) : M A := fun log => (inr a, log).

Definition raise {A} (e : error) : M A := fun log => (inl e, log).

Definition bind {A B} (m : M A) (k : A -> M B) : M B :=
  fun log =>
    match m log with
    | (inl e, log') => (inl e, log')
    | (inr a, log') => k a log'
    end.

Notation "x <- m ;; k" := (bind m (fun x => k))
  (at level 61, m at next level, right associativity).

(** Re-raise whatever [m] raises wrapped by [wrap]. *)
Definition on_error {A} (wrap : error -> error) (m : M A) : M A :=
  fun log =>
    match m log with
    | (inl e, log') => (inl (wrap e), log')
    | (inr a, log') => (inr a, log')
    end.

Fixpoint mapM {A B} (f : A -> M B) (l : list A) : M (list B) :=
  match l with
  | [] => ret []
  | a :: l' => b <- f a ;; bs <- mapM f l' ;; ret (b :: bs)
  end.

Definition lift {A} (r : error + A) : M A :=
  match r with
  | inl e => raise e
  | inr a => ret a
  end.

(** [llm.invoke(msgs).content] *)
Definition llm_invoke (llm : ChatModel) (msgs : list message) : M string :=
  fun log => (inr (content_of llm log msgs), log ++ [Invoke msgs]).

(** [llm.with_structured_output(Qualifications).invoke(msgs)] *)
Definition structured_invoke (llm : ChatModel) (msgs : list message)
  : M Qualifications :=
  fun log => (inr (structured_of llm log msgs), log ++ [InvokeStructured msgs]).

(** ** Dictionary access *)

(** [state[key]] *)
Definition getitem {A} (key : string) (field : option A) : M A :=
  match field with
  | Some v => ret v
  | None => raise (KeyError key)
  end.

(** [state.get(key, default)] *)
Definition get {A} (field : option A) (default : A) : A :=
  match field with
  | Some v => v
  | None => default
  end.

Definition nl : string := String (ascii_of_nat 10) EmptyString.

(** ["\n".join(l)] *)
Definition join_lines (l : list string) : string := String.concat nl l.

(** ** State schemas *)

(** [class JobQualsState(TypedDict)]; a key may be missing from the
    dictionary at run time, hence the options. *)
Module JobQualsState.
Record t := {
  job_post : option string;
  human_feedback : option string;
  qualifications : option Qualifications
}.
End JobQualsState.

(** [class ResumeState(TypedDict)] *)
Record ResumeState := {
  job_post : option string;
  human_feedback : option string;
  resume_input : option string;
  qualifications : option Qualifications;
  resume_draft : option string;
  editor_feedback : option (list string);
  iteration : option Z
}.

(** Modelled from the spec: a state schema fixes how a partial update (a
    dictionary with some of the keys) is merged into the state, and what the
    empty dictionary is. *)
Class StateSchema (St : Type) := {
  merge : St -> St -> St;
  no_update : St
}.

(** Modelled from the spec: the merge policy of a scalar field, the update
    overwrites the value. *)
Definition overwrite {A} (old new : option A) : option A :=
  match new with
  | Some v => Some v
  | None => old
  end.

(** The reducer declared on [editor_feedback],
    [Annotated[List[str], operator.add]]: the new value is
    [operator.add(old, update)], the two lists concatenated (an accumulator
    field appends). *)
Definition operator_add (old new : option (list string)) : option (list string) :=
  match new with
  | Some l => Some (get old [] ++ l)
  | None => old
  end.

#[export] Instance JobQualsState_schema : StateSchema JobQualsState.t := {
  merge s u := {|
    JobQualsState.job_post :=
      overwrite (JobQualsState.job_post s) (JobQualsState.job_post u);
    JobQualsState.human_feedback :=
      overwrite (JobQualsState.human_feedback s) (JobQualsState.human_feedback u);
    JobQualsState.qualifications :=
      overwrite (JobQualsState.qualifications s) (JobQualsState.qualifications u)
  |};
  no_update := {|
    JobQualsState.job_post := None;
    JobQualsState.human_feedback := None;
    JobQualsState.qualifications := None
  |}
}.

#[export] Instance ResumeState_schema : StateSchema ResumeState := {
  merge s u := {|
    job_post := overwrite (job_post s) (job_post u);
    human_feedback := overwrite (human_feedback s) (human_feedback u);
    resume_input := overwrite (resume_input s) (resume_input u);
    qualifications := overwrite (qualifications s) (qualifications u);
    resume_draft := overwrite (resume_draft s) (resume_draft u);
    editor_feedback := operator_add (editor_feedback s) (editor_feedback u);
    iteration := overwrite (iteration s) (iteration u)
  |};
  no_update := {|
    job_post := None;
    human_feedback := None;
    resume_input := None;
    qualifications := None;
    resume_draft := None;
    editor_feedback := None;
    iteration := None
  |}
}.

(** ** Prompts *)

(** [qualification_instructions.format(job_post=..., human_feedback=...)] *)
Definition qualification_instructions (job_post human_feedback : string) : string :=
  ("You are tasked with analyzing a job posting and coming up with a outline for writing tailored resume.

1. Carefully read the following job post:
" ++ job_post ++ "

2. Extract qualifications into two categories, focus on keywords of technology required, such as Power BI and AWS :
   - Required (must-have skills/credentials/experience)
   - Preferred (nice-to-have or optional)

3. Update qualification with similar item based on human feedback of the user:
" ++ human_feedback ++ "

3. Return the structured lists.
")%string.

(** The f-string of [draft_resume]; [required] and [preferred] are the two
    lists already rendered as text. *)
Definition draft_prompt
  (job_post required preferred resume_input previous feedback : string) : string :=
  ("You are a career coach.
    Tailor the candidate's resume to this job post:

    Job Post:
    " ++ job_post ++ "

    Required Qualifications:
    " ++ required ++ "

    Preferred Qualifications:
    " ++ preferred ++ "

    Existing Resume:
    " ++ resume_input ++ "

    Previous Draft (if any):
    " ++ previous ++ "

    Feedback from reviewers:
    " ++ feedback ++ "

    Draft a revised resume highlighting relevant achievements, quantifying impact where possible.
    ")%string.

Definition critique_prompt : string :=
  "You are a strict resume reviewer.
    Critique the resume draft for:
    - Grammar issues
    - Lack of quantified metrics
    - Weak descriptions of achievements
    Provide actionable suggestions.
    ".

(** The f-string of [write_final_draft]. *)
Definition final_prompt (draft feedback : string) : string :=
  ("You are a professional career coach.
    Produce a final, polished resume based on the following:

    Last Draft:
    " ++ draft ++ "

    Feedback from editors (if any):
    " ++ feedback ++ "

    Ensure:
    - Clear grammar and style
    - Achievements quantified
    - Strong focus on required and preferred qualifications
    ")%string.

(** ** Node and routing functions *)

(** Modelled from the spec: a (successor name, state payload) pair of a
    fan-out, written [Send(node, arg)] in the source; the class is imported
    from [langgraph]. *)
Record Send (St : Type) := { send_node : string; send_arg : St }.
Arguments Build_Send {St}.
Arguments send_node {St}.
Arguments send_arg {St}.

Section Nodes.

(** The model client, and Python's rendering of a list of strings inside
    an f-string. *)
Variable llm : ChatModel.
Variable format_list : list string -> string.

Definition extract_qualifications (state : JobQualsState.t) : M JobQualsState.t :=
  job_post <- getitem "job_post" (JobQualsState.job_post state) ;;
  let human_feedback := get (JobQualsState.human_feedback state) "" in
  let system_message := qualification_instructions job_post human_feedback in
  qualifications <-
    structured_invoke llm
      ([SystemMessage system_message]
       ++ [HumanMessage "Extract the qualifications now."]) ;;
  ret {| JobQualsState.job_post := None;
         JobQualsState.human_feedback := None;
         JobQualsState.qualifications := Some qualifications |}.

(** The body is [pass]: nothing is returned, nothing is updated. *)
Definition human_feedback_node (state : ResumeState) : ResumeState :=
  no_update.

Definition draft_resume (state : ResumeState) : M ResumeState :=
  job_post <- getitem "job_post" (job_post state) ;;
  qualifications <- getitem "qualifications" (qualifications state) ;;
  resume_input <- getitem "resume_input" (resume_input state) ;;
  let feedback := join_lines (get (editor_feedback state) []) in
  let system_message :=
    draft_prompt job_post
      (format_list (required qualifications))
      (format_list (preferred qualifications))
      resume_input
      (get (resume_draft state) "")
      feedback in
  draft <- llm_invoke llm [SystemMessage system_message] ;;
  ret {| job_post := None;
         human_feedback := None;
         resume_input := None;
         qualifications := None;
         resume_draft := Some draft;
         editor_feedback := Some [];
         iteration := None |}.

Definition editor_api (state : ResumeState) : ResumeState :=
  {| job_post := None;
     human_feedback := None;
     resume_input := None;
     qualifications := None;
     resume_draft := None;
     editor_feedback := Some ["[API editor returned no feedback]"];
     iteration := None |}.

Definition editor_critique (state : ResumeState) : M ResumeState :=
  draft <- getitem "resume_draft" (resume_draft state) ;;
  let system_message := critique_prompt in
  feedback <-
    llm_invoke llm [SystemMessage system_message; HumanMessage draft] ;;
  ret {| job_post := None;
         human_feedback := None;
         resume_input := None;
         qualifications := None;
         resume_draft := None;
         editor_feedback := Some [feedback];
         iteration := None |}.

Definition should_human_feedback_continue (state : ResumeState) : string :=
  match human_feedback state with
  | None => "draft_resume"
  | Some human_feedback =>
      if String.eqb human_feedback "ok" then "draft_resume"
      else "extract_qualifications"
  end.

Definition send_to_editors (state : ResumeState) : M (list (Send ResumeState)) :=
  draft <- getitem "resume_draft" (resume_draft state) ;;
  let payload :=
    {| job_post := None;
       human_feedback := None;
       resume_input := None;
       qualifications := None;
       resume_draft := Some draft;
       editor_feedback := None;
       iteration := None |} in
  ret [ Build_Send "editor_api" payload;
        Build_Send "editor_critique" payload ].

Definition revise_resume (state : ResumeState) : ResumeState :=
  {| job_post := None;
     human_feedback := None;
     resume_input := None;
     qualifications := None;
     resume_draft := None;
     editor_feedback := None;
     iteration := Some (get (iteration state) 0 + 1)%Z |}.

Definition should_continue (state : ResumeState) : string :=
  if (2 <=? get (iteration state) 0)%Z then "write_final_draft"
  else "draft_resume".

Definition write_final_draft (state : ResumeState) : M ResumeState :=
  let draft := get (resume_draft state) "" in
  let feedback := join_lines (get (editor_feedback state) []) in
  let system_message := final_prompt draft feedback in
  final_resume <- llm_invoke llm [SystemMessage system_message] ;;
  ret {| job_post := None;
         human_feedback := None;
         resume_input := None;
         qualifications := None;
         resume_draft := Some final_resume;
         editor_feedback := None;
         iteration := None |}.

End Nodes.

(** ** The graph engine

    The source imports the engine ([StateGraph], [START], [END], [Send],
    [compile], invocation, resumption and checkpoints) from the [langgraph]
    package, which is not part of the sources.  A declared graph is data; it
    is executed in supersteps: every scheduled node runs on the state as it
    stands, the returned updates are merged with the schema's policy, and the
    successors of the nodes that ran are scheduled next.  A static edge hands
    the successor the global state; a fan-out hands each successor the payload
    of its [Send].  Execution pauses before a superstep that schedules an
    interruption point, and ends when nothing is scheduled. *)

(** Modelled from the spec: the entry marker of a graph ([START] is imported
    from [langgraph]). *)
Definition START : string := "__start__".

(** Modelled from the spec: the terminal marker of a graph ([END] is imported
    from [langgraph]). *)
Definition END : string := "__end__".

(** Modelled from the spec: the engine's bound on the supersteps of a nested
    invocation; the spec gives none, and any bound of two or more serves. *)
Definition recursion_limit : nat := 25.

Section Engine.

Context {St : Type} `{StateSchema St}.

(** Modelled from the spec: what the routing function of a conditional or
    fan-out edge returns, the name of one successor or a list of (successor,
    payload) pairs. *)
Inductive path_result :=
| Goto (name : string)
| Fanout (packets : list (Send St)).

(** Modelled from the spec: a conditional edge, as declared by
    [add_conditional_edges(source, path, path_map)]: node, routing function
    and declared set of successors. *)
Record Branch := {
  source : string;
  path : St -> M path_result;
  path_map : list string
}.

(** Modelled from the spec: a graph definition, the nodes of [add_node],
    the static edges of [add_edge] and the conditional edges. *)
Record StateGraph := {
  nodes : list (string * (St -> M St));
  edges : list (string * string);
  branches : list Branch
}.

(** Modelled from the spec: a runnable graph, the definition together with
    its interruption points. *)
Record CompiledStateGraph := {
  graph_of : StateGraph;
  interrupt_before : list string
}.

(** Modelled from the spec: [compile(graph_definition)]; the validation it
    performs ([GraphDefinitionError]) is left out. *)
Definition compile (g : StateGraph) (interrupt_before : list string)
  : CompiledStateGraph :=
  {| graph_of := g; interrupt_before := interrupt_before |}.

(** Modelled from the spec: a checkpoint, the snapshot of the state with the
    identity of what runs next; it is also the paused handle. *)
Record Checkpoint := {
  values : St;
  next : list string;
  sends : list (Send St)
}.

(** Modelled from the spec: the record of one node execution, the state it
    was given and the update it returned. *)
Record Ran := { ran_node : string; ran_input : St; ran_update : St }.

(** Modelled from the spec: the record of one superstep, the nodes that ran
    and the state once their updates are merged. *)
Record StepLog := { ran : list Ran; merged : St }.

(** Modelled from the spec: how an invocation or a resumption returns, with
    the final state or with a paused handle; [OutOfFuel] is the interpreter
    stopping at its step budget. *)
Inductive Outcome :=
| Final (state : St)
| Paused (handle : Checkpoint)
| OutOfFuel (at_ : Checkpoint).

(** Modelled from the spec: what a run returns, with the supersteps it
    took. *)
Record Result := { outcome : Outcome; trace : list StepLog }.

(** Modelled from the spec: membership of a name in a declared set. *)
Definition mem (name : string) (names : list string) : bool :=
  existsb (String.eqb name) names.

(** Modelled from the spec: the body of a declared node. *)
Definition find_node (g : StateGraph) (name : string) : option (St -> M St) :=
  match find (fun entry => String.eqb (fst entry) name) (nodes g) with
  | Some entry => Some (snd entry)
  | None => None
  end.

(** Modelled from the spec: the tasks of the coming superstep with the input
    of each, the isolated payload for a fan-out branch and the global state
    otherwise. *)
Definition tasks (c : Checkpoint) : list (string * St) :=
  map (fun packet => (send_node packet, send_arg packet)) (sends c)
  ++ map (fun name => (name, values c)) (next c).

(** Modelled from the spec: one node run on its input; an undeclared name
    is a definition error and a failing body a [NodeExecutionError] carrying
    the node name. *)
Definition run_task (g : StateGraph) (task : string * St) : M Ran :=
  match find_node g (fst task) with
  | None => raise (GraphDefinitionError (fst task))
  | Some body =>
      update <- on_error (NodeExecutionError (fst task)) (body (snd task)) ;;
      ret {| ran_node := fst task; ran_input := snd task; ran_update := update |}
  end.

(** Modelled from the spec: the updates of a superstep merged into the
    global state with the merge policy of each field. *)
Definition apply_writes (values : St) (rans : list Ran) : St :=
  fold_left (fun state r => merge state (ran_update r)) rans values.

(** Modelled from the spec: the successors of a node along static edges. *)
Definition static_targets (g : StateGraph) (name : string) : list string :=
  map snd (filter (fun edge => String.eqb (fst edge) name) (edges g)).

(** Modelled from the spec: a conditional edge calls its routing function
    with the current state (the node's own update applied) and dispatches to
    the returned name, which must be in the declared set, else
    [RoutingError]. *)
Definition route_branch (values : St) (r : Ran) (b : Branch)
  : M (list string * list (Send St)) :=
  res <- path b (merge values (ran_update r)) ;;
  match res with
  | Goto name =>
      if mem name (path_map b) then ret ([name], [])
      else raise (RoutingError (ran_node r) name)
  | Fanout packets =>
      match find (fun packet => negb (mem (send_node packet) (path_map b))) packets with
      | Some packet => raise (RoutingError (ran_node r) (send_node packet))
      | None => ret ([], packets)
      end
  end.

(** Modelled from the spec: everything scheduled after a node, along its
    static edges and its conditional edges. *)
Definition successors (g : StateGraph) (values : St) (r : Ran)
  : M (list string * list (Send St)) :=
  routed <- mapM (route_branch values r)
              (filter (fun b => String.eqb (source b) (ran_node r)) (branches g)) ;;
  ret (static_targets g (ran_node r) ++ concat (map fst routed),
       concat (map snd routed)).

(** Modelled from the spec: the nodes to run next, each once; the terminal
    marker is not a node. *)
Definition schedule (names : list string) : list string :=
  nodup string_dec (filter (fun name => negb (String.eqb name END)) names).

(** Modelled from the spec: one superstep; all scheduled nodes run on the
    same state, their updates are merged, and execution proceeds only once
    all of them have completed. *)
Definition superstep (g : StateGraph) (c : Checkpoint) : M (StepLog * Checkpoint) :=
  rans <- mapM (run_task g) (tasks c) ;;
  succ <- mapM (successors g (values c)) rans ;;
  let values' := apply_writes (values c) rans in
  ret ({| ran := rans; merged := values' |},
       {| values := values';
          next := schedule (concat (map fst succ));
          sends := concat (map snd succ) |}).

(** Modelled from the spec: is a node declared as an interruption point
    about to run? *)
Definition should_interrupt (g : CompiledStateGraph) (c : Checkpoint) : bool :=
  existsb (fun task => mem (fst task) (interrupt_before g)) (tasks c).

(** Modelled from the spec: the execution loop.  It ends with the current
    state when nothing is scheduled, pauses with a checkpoint immediately
    before a superstep that runs an interruption point (unless it is resuming
    from that very point), and otherwise runs the superstep and goes on. *)
Fixpoint run (g : CompiledStateGraph) (fuel : nat) (resuming : bool)
  (c : Checkpoint) (tr : list StepLog) : M Result :=
  match fuel with
  | O => ret {| outcome := OutOfFuel c; trace := tr |}
  | S fuel' =>
      match tasks c with
      | [] => ret {| outcome := Final (values c); trace := tr |}
      | _ :: _ =>
          if negb resuming && should_interrupt g c
          then ret {| outcome := Paused c; trace := tr |}
          else
            sc <- superstep (graph_of g) c ;;
            run g fuel' false (snd sc) (tr ++ [fst sc])
      end
  end.

(** Modelled from the spec: [invoke(RunnableGraph, initial_state)], starting
    at the successors of the entry marker. *)
Definition invoke (g : CompiledStateGraph) (fuel : nat) (input : St) : M Result :=
  run g fuel false
    {| values := input;
       next := schedule (static_targets (graph_of g) START);
       sends := [] |}
    [].

(** Modelled from the spec: [resume(handle, patch)] merges the patch into
    the checkpointed state and continues from the interrupted node. *)
Definition resume (g : CompiledStateGraph) (fuel : nat)
  (handle : Checkpoint) (patch : St) : M Result :=
  run g fuel true
    {| values := merge (values handle) patch;
       next := next handle;
       sends := sends handle |}
    [].

(** Modelled from the spec: a caller that resumes a paused run with one
    patch after the other, for as long as the run pauses; the traces are
    chained. *)
Fixpoint session (g : CompiledStateGraph) (fuel : nat) (r : Result)
  (patches : list St) : M Result :=
  match patches, outcome r with
  | patch :: rest, Paused handle =>
      r' <- resume g fuel handle patch ;;
      session g fuel {| outcome := outcome r'; trace := trace r ++ trace r' |} rest
  | _, _ => ret r
  end.

(** Modelled from the spec: an invocation followed by the resumptions of
    [session]. *)
Definition conversation (g : CompiledStateGraph) (fuel : nat) (input : St)
  (patches : list St) : M Result :=
  r <- invoke g fuel input ;;
  session g fuel r patches.

End Engine.

Arguments path_result : clear implicits.
Arguments Branch : clear implicits.
Arguments StateGraph : clear implicits.
Arguments CompiledStateGraph : clear implicits.
Arguments Checkpoint : clear implicits.
Arguments Ran : clear implicits.
Arguments StepLog : clear implicits.
Arguments Outcome : clear implicits.
Arguments Result : clear implicits.

(** ** The declared graphs *)

Section Graphs.

Variable llm : ChatModel.
Variable format_list : list string -> string.

Definition qua_builder : StateGraph JobQualsState.t := {|
  nodes := [ ("extract_qualifications", extract_qualifications llm) ];
  edges := [ (START, "extract_qualifications");
             ("extract_qualifications", END) ];
  branches := []
|}.

(** Modelled from the spec: the keys of [JobQualsState] read out of the
    outer state. *)
Definition subgraph_input (state : ResumeState) : JobQualsState.t :=
  {| JobQualsState.job_post := job_post state;
     JobQualsState.human_feedback := human_feedback state;
     JobQualsState.qualifications := qualifications state |}.

(** Modelled from the spec: a state of the subgraph written back as an
    update of the outer state. *)
Definition subgraph_output (out : JobQualsState.t) : ResumeState :=
  {| job_post := JobQualsState.job_post out;
     human_feedback := JobQualsState.human_feedback out;
     resume_input := None;
     qualifications := JobQualsState.qualifications out;
     resume_draft := None;
     editor_feedback := None;
     iteration := None |}.

(** Modelled from the spec: a compiled graph used as a node of another graph
    (the main workflow invokes the extraction sub-workflow as one compiled
    step): it is invoked on the keys it shares with the outer state and its
    final state is the update. *)
Definition subgraph_node (sub : CompiledStateGraph JobQualsState.t)
  (state : ResumeState) : M ResumeState :=
  r <- invoke sub recursion_limit (subgraph_input state) ;;
  match outcome r with
  | Final out => ret (subgraph_output out)
  | _ => raise GraphRecursionError
  end.

Definition builder : StateGraph ResumeState := {|
  nodes := [
    ("extract_qualifications", subgraph_node (compile qua_builder []));
    ("human_feedback", fun state => ret (human_feedback_node state));
    ("draft_resume", draft_resume llm format_list);
    ("editor_api", fun state => ret (editor_api state));
    ("editor_critique", editor_critique llm);
    ("revise_resume", fun state => ret (revise_resume state));
    ("write_final_draft", write_final_draft llm) ];
  edges := [
    (START, "extract_qualifications");
    ("extract_qualifications", "human_feedback");
    ("draft_resume", "editor_api");
    ("draft_resume", "editor_critique");
    ("editor_api", "revise_resume");
    ("editor_critique", "revise_resume");
    ("write_final_draft", END) ];
  branches := [
    {| source := "human_feedback";
       path := fun state => ret (Goto (should_human_feedback_continue state));
       path_map := ["extract_qualifications"; "draft_resume"] |};
    {| source := "revise_resume";
       path := fun state => ret (Goto (should_continue state));
       path_map := ["draft_resume"; "write_final_draft"] |} ]
|}.

Definition graph : CompiledStateGraph ResumeState :=
  compile builder ["human_feedback"].

End Graphs.

(** ** Observations on runs *)

(** The names of the nodes that ran in a superstep. *)
Definition ran_names {St} (step : StepLog St) : list string :=
  map (@ran_node St) (ran step).

Definition feedback_count (state : ResumeState) : nat :=
  length (get (editor_feedback state) []).

Definition set_human_feedback (text : option string) (state : ResumeState)
  : ResumeState :=
  {| job_post := job_post state;
     human_feedback := text;
     resume_input := resume_input state;
     qualifications := qualifications state;
     resume_draft := resume_draft state;
     editor_feedback := editor_feedback state;
     iteration := iteration state |}.

Definition set_qualifications (q : option Qualifications) (state : ResumeState)
  : ResumeState :=
  {| job_post := job_post state;
     human_feedback := human_feedback state;
     resume_input := resume_input state;
     qualifications := q;
     resume_draft := resume_draft state;
     editor_feedback := editor_feedback state;
     iteration := iteration state |}.

Definition set_iteration (i : option Z) (state : ResumeState) : ResumeState :=
  {| job_post := job_post state;
     human_feedback := human_feedback state;
     resume_input := resume_input state;
     qualifications := qualifications state;
     resume_draft := resume_draft state;
     editor_feedback := editor_feedback state;
     iteration := i |}.

(** The state with an absent [iteration] read as [0]. *)
Definition read_iteration (state : ResumeState) : ResumeState :=
  set_iteration (Some (get (iteration state) 0%Z)) state.

(** A function on states applied to every state a result shows. *)
Definition map_checkpoint {St} (f : St -> St) (c : Checkpoint St) : Checkpoint St :=
  {| values := f (values c); next := next c; sends := sends c |}.

Definition map_outcome {St} (f : St -> St) (o : Outcome St) : Outcome St :=
  match o with
  | Final state => Final (f state)
  | Paused handle => Paused (map_checkpoint f handle)
  | OutOfFuel at_ => OutOfFuel (map_checkpoint f at_)
  end.

Definition map_ran {St} (f : St -> St) (r : Ran St) : Ran St :=
  {| ran_node := ran_node r; ran_input := f (ran_input r); ran_update := ran_update r |}.

Definition map_step {St} (f : St -> St) (step : StepLog St) : StepLog St :=
  {| ran := map (map_ran f) (ran step); merged := f (merged step) |}.

Definition map_result {St} (f : St -> St) (r : Result St) : Result St :=
  {| outcome := map_outcome f (outcome r); trace := map (map_step f) (trace r) |}.

(** Does an exception come from a routing function that returned a name
    outside its declared set? *)
Fixpoint is_routing_error (e : error) : bool :=
  match e with
  | RoutingError _ _ => true
  | NodeExecutionError _ cause => is_routing_error cause
  | _ => false
  end.

Definition raises_routing_error {A} (r : error + A) : bool :=
  match r with
  | inl e => is_routing_error e
  | inr _ => false
  end.

(** The rounds of drafting still to come when drafting starts in [state]:
    at least one, and as many as it takes the counter to reach 2. *)
Definition rounds_left (state : ResumeState) : nat :=
  Z.to_nat (Z.max 1 (2 - get (iteration state) 0))%Z.

(** The payload that [send_to_editors] packs: the draft and nothing else. *)
Definition isolated_payload (state : ResumeState) : ResumeState :=
  {| job_post := None;
     human_feedback := None;
     resume_input := None;
     qualifications := None;
     resume_draft := resume_draft state;
     editor_feedback := None;
     iteration := None |}.

(** Two computations run on the same log agree up to [R] on their values:
    both raise the same exception or both return, with the same log. *)
Definition agree {A B} (R : A -> B -> Prop)
  (x : (error + A) * list request) (y : (error + B) * list request) : Prop :=
  match x, y with
  | (inr a, log1), (inr b, log2) => R a b /\ log1 = log2
  | (inl e1, log1), (inl e2, log2) => e1 = e2 /\ log1 = log2
  | _, _ => False
  end.

(** A node body that raises nothing traced back to a routing function. *)
Definition safe_body {St} (entry : string * (St -> M St)) : Prop :=
  forall state log, raises_routing_error (fst (snd entry state log)) = false.

(** A branch whose routing function always names a declared successor. *)
Definition safe_branch {St} (b : Branch St) : Prop :=
  forall state log, exists name,
    path b state log = (inr (Goto name), log) /\ mem name (path_map b) = true.

(** A superstep that is not the final draft and, if it is the join, leaves
    the counter still below 2. *)
Definition quiet (step : StepLog ResumeState) : Prop :=
  ~ In "write_final_draft" (ran_names step)
  /\ (ran_names step = ["revise_resume"]
      -> (get (iteration (merged step)) 0 < 2)%Z).

(** The join that brings the counter to 2 or more. *)
Definition closing_join (step : StepLog ResumeState) : Prop :=
  ran_names step = ["revise_resume"]
  /\ (2 <= get (iteration (merged step)) 0)%Z.

(** A trace that ends with the closing join followed by the final draft,
    every earlier superstep being quiet; [final] is the state it leaves. *)
Definition finished_once (tr : list (StepLog ResumeState)) (final : ResumeState)
  : Prop :=
  exists before join last,
    tr = before ++ [join; last]
    /\ Forall quiet before
    /\ closing_join join
    /\ ran_names last = ["write_final_draft"]
    /\ merged last = final
    /\ (2 <= get (iteration final) 0)%Z.

(** Where a run of the main graph can stand: in the loops before the closing
    join, between the closing join and the final draft, or at the end. *)
Definition phase (tr : list (StepLog ResumeState)) (c : Checkpoint ResumeState)
  : Prop :=
  sends c = []
  /\ ((Forall quiet tr
       /\ (next c = ["extract_qualifications"]
           \/ next c = ["human_feedback"]
           \/ next c = ["draft_resume"]
           \/ next c = ["editor_api"; "editor_critique"]
           \/ next c = ["revise_resume"]))
      \/ (exists before join,
            tr = before ++ [join]
            /\ Forall quiet before
            /\ closing_join join
            /\ merged join = values c
            /\ next c = ["write_final_draft"])
      \/ (finished_once tr (values c) /\ next c = [])).

Definition well_phased (r : Result ResumeState) : Prop :=
  match outcome r with
  | Final final => finished_once (trace r) final
  | Paused handle =>
      Forall quiet (trace r)
      /\ next handle = ["human_feedback"] /\ sends handle = []
  | OutOfFuel _ => True
  end.

(** The reading of "each editor receives the isolated payload": whenever an
    editor runs, its input holds the draft and nothing else. *)
Definition editors_receive_isolated_payload
  (llm : ChatModel) (format_list : list string -> string) : Prop :=
  forall fuel input patches log r log' step x,
    conversation (graph llm format_list) fuel input patches log = (inr r, log') ->
    In step (trace r) ->
    In x (ran step) ->
    ran_node x = "editor_api" \/ ran_node x = "editor_critique" ->
    ran_input x = isolated_payload (ran_input x).

(** Tasks, and executed nodes, that differ only in what [norm] forgets. *)
Definition alike_task {St} (norm : St -> St) (t t' : string * St) : Prop :=
  fst t = fst t' /\ norm (snd t) = norm (snd t').

Definition alike_ran {St} (norm : St -> St) (r r' : Ran St) : Prop :=
  map_ran norm r = map_ran norm r'.

(** ** The process environment and the keys asked at start-up *)

(** [os.environ], a mapping from names to values. *)
Definition Environ : Type := string -> option string.

(** [os.environ[key] = value] *)
Definition setenv (key value : string) (environ : Environ) : Environ :=
  fun name => if String.eqb name key then Some value else environ name.

(** The process as [_set_env] sees it: the environment, and the prompts
    that [getpass.getpass] has shown so far. *)
Record Process := {
  environ : Environ;
  prompts : list string
}.

(** The truth value Python gives to [os.environ.get(var)]: [None] and the
    empty string are false. *)
Definition truthy (value : option string) : bool :=
  match value with
  | Some (String _ _) => true
  | _ => false
  end.

(** [def _set_env(var)].  What the user types at the prompt is not determined
    by the program: [getpass] is an oracle of the prompts shown so far and of
    the prompt. *)
Definition _set_env (getpass : list string -> string -> string)
  (var : string) (p : Process) : Process :=
  if negb (truthy (environ p var))
  then {| environ := setenv var (getpass (prompts p) (var ++ ": ")%string) (environ p);
          prompts := prompts p ++ [(var ++ ": ")%string] |}
  else p.

(** The statements the module runs when it is loaded, but for the
    construction of the model client: the two [_set_env] calls and the two
    assignments to [os.environ]. *)
Definition module_setup (getpass : list string -> string -> string)
  (p : Process) : Process :=
  let p1 := _set_env getpass "OPENAI_API_KEY" p in
  let p2 := _set_env getpass "LANGSMITH_API_KEY" p1 in
  {| environ :=
       setenv "LANGSMITH_PROJECT" "langchain-academy"
         (setenv "LANGSMITH_TRACING" "true" (environ p2));
     prompts := prompts p2 |}.

(** ** More observations on runs *)

(** The exception a node raised, under the engine's wrappers. *)
Fixpoint root_cause (e : error) : error :=
  match e with
  | NodeExecutionError _ cause => root_cause cause
  | _ => e
  end.

(** A property of states that holds after every superstep of a result and
    in the state it returns. *)
Definition holds_throughout {St} (P : St -> Prop) (r : Result St) : Prop :=
  Forall (fun step => P (merged step)) (trace r)
  /\ match outcome r with
     | Final state => P state
     | Paused handle => P (values handle)
     | OutOfFuel at_ => P (values at_)
     end.

(** The job post and the resume are those of [reference]. *)
Definition same_inputs (reference state : ResumeState) : Prop :=
  job_post state = job_post reference
  /\ resume_input state = resume_input reference.


(** An update that sets neither the job post nor the resume. *)
Definition leaves_inputs (update : ResumeState) : Prop :=
  job_post update = None /\ resume_input update = None.

(** ** A sample model and sample inputs *)

Definition sample_llm : ChatModel := {|
  content_of := fun log _ => String (ascii_of_nat (48 + length log)) "";
  structured_of := fun _ _ => {| required := ["AWS"]; preferred := ["Power BI"] |}
|}.

Definition sample_format (l : list string) : string := String.concat ", " l.

Definition sample_input : ResumeState :=
  {| job_post := Some "Data engineer";
     human_feedback := None;
     resume_input := Some "Five years of SQL";
     qualifications := None;
     resume_draft := None;
     editor_feedback := None;
     iteration := None |}.

Definition ok_patch : ResumeState :=
  {| job_post := None;
     human_feedback := Some "ok";
     resume_input := None;
     qualifications := None;
     resume_draft := None;
     editor_feedback := None;
     iteration := None |}.

Definition sample_quals_state : JobQualsState.t :=
  {| JobQualsState.job_post := Some "Data engineer";
     JobQualsState.human_feedback := Some "need AWS keyword";
     JobQualsState.qualifications := None |}.

Definition sample_getpass (shown : list string) (prompt : string) : string :=
  "sk-typed".

Definition sample_process : Process :=
  {| environ := fun name =>
       if String.eqb name "OPENAI_API_KEY" then Some "sk-set" else None;
     prompts := [] |}.

Definition sample_drafted : ResumeState :=
  {| job_post := Some "Data engineer";
     human_feedback := Some "ok";
     resume_input := Some "Five years of SQL";
     qualifications := Some {| required := ["AWS"]; preferred := ["Power BI"] |};
     resume_draft := Some "First draft";
     editor_feedback := Some [];
     iteration := None |}.

Definition feedback_patch : ResumeState :=
  {| job_post := None;
     human_feedback := Some "need AWS keyword";
     resume_input := None;
     qualifications := None;
     resume_draft := None;
     editor_feedback := None;
     iteration := None |}.

Arguments qualification_instructions : simpl never.
Arguments draft_prompt : simpl never.
Arguments final_prompt : simpl never.
Arguments critique_prompt : simpl never.

(** * Properties *)

(** ** Dictionaries and merging *)

Lemma merge_no_update (state : ResumeState) : merge state no_update = state.
Proof. destruct state; reflexivity. Qed.

(** ** The routing functions *)

Lemma should_human_feedback_continue_cases (state : ResumeState) :
  should_human_feedback_continue state = "draft_resume"
  \/ should_human_feedback_continue state = "extract_qualifications".
Proof.
  unfold should_human_feedback_continue.
  destruct (human_feedback state) as [text|]; [|now left].
  destruct (String.eqb text "ok"); [now left | now right].
Qed.

Lemma should_continue_cases (state : ResumeState) :
  should_continue state = "write_final_draft"
  \/ should_continue state = "draft_resume".
Proof.
  unfold should_continue.
  destruct (2 <=? get (iteration state) 0)%Z; [now left | now right].
Qed.

Lemma should_continue_iff (state : ResumeState) :
  (should_continue state = "write_final_draft"
   <-> (2 <= get (iteration state) 0)%Z)
  /\ (should_continue state = "draft_resume"
      <-> (get (iteration state) 0 < 2)%Z).
Proof.
  unfold should_continue.
  destruct (Z.leb_spec 2 (get (iteration state) 0%Z)) as [Hge | Hlt].
  - split; split; intro Hx; try assumption; try reflexivity.
    + discriminate Hx.
    + lia.
  - split; split; intro Hx; try assumption; try reflexivity.
    + discriminate Hx.
    + lia.
Qed.

(** C5: [should_continue] answers [write_final_draft] exactly when the
    iteration counter (0 when the key is missing) is at least 2, and
    [draft_resume] exactly when it is not. *)
Theorem should_continue_threshold (state : ResumeState) :
  (should_continue state = "write_final_draft"
   <-> (2 <= get (iteration state) 0)%Z)
  /\ (should_continue state = "draft_resume"
      <-> ~ (2 <= get (iteration state) 0)%Z).
Proof.
  destruct (should_continue_iff state) as [Hfinal Hagain].
  split; [exact Hfinal |]. rewrite Hagain. lia.
Qed.

(** C7: the update returned by [revise_resume] holds the key [iteration]
    alone, with one more than the current counter; merged into the state it
    leaves every other field as it was. *)
Theorem revise_resume_only_increments (state : ResumeState) :
  revise_resume state
  = set_iteration (Some (get (iteration state) 0 + 1)%Z) no_update
  /\ merge state (revise_resume state)
     = set_iteration (Some (get (iteration state) 0 + 1)%Z) state.
Proof.
  split.
  - reflexivity.
  - destruct state; reflexivity.
Qed.

(** ** The monad *)

Lemma agree_bind {A A' B B'} (R : A -> A' -> Prop) (Q : B -> B' -> Prop)
  (m : M A) (m' : M A') (k : A -> M B) (k' : A' -> M B') log :
  agree R (m log) (m' log) ->
  (forall a a' log1, R a a' -> agree Q (k a log1) (k' a' log1)) ->
  agree Q ((x <- m ;; k x) log) ((x <- m' ;; k' x) log).
Proof.
  intros Hm Hk. unfold bind.
  destruct (m log) as [[e | a] log1], (m' log) as [[e' | a'] log1'];
    simpl in Hm; try contradiction; destruct Hm as [Hv ->].
  - subst e'. simpl. split; reflexivity.
  - apply Hk, Hv.
Qed.

Lemma agree_mapM {A A' B B'} (R : A -> A' -> Prop) (Q : B -> B' -> Prop)
  (f : A -> M B) (f' : A' -> M B') :
  (forall a a' log, R a a' -> agree Q (f a log) (f' a' log)) ->
  forall l l' log, Forall2 R l l' ->
    agree (Forall2 Q) (mapM f l log) (mapM f' l' log).
Proof.
  intros Hf l l' log Hl. revert log.
  induction Hl as [| a a' l l' Ha Hl IH]; intro log.
  - simpl. split; [constructor | reflexivity].
  - simpl. apply agree_bind with (R := Q); [apply Hf, Ha |].
    intros b b' log1 Hb.
    apply agree_bind with (R := Forall2 Q); [apply IH |].
    intros bs bs' log2 Hbs. simpl. split; [constructor; assumption | reflexivity].
Qed.

Lemma bind_safe {A B} (m : M A) (k : A -> M B) log :
  raises_routing_error (fst (m log)) = false ->
  (forall a log1, raises_routing_error (fst (k a log1)) = false) ->
  raises_routing_error (fst ((x <- m ;; k x) log)) = false.
Proof.
  intros Hm Hk. unfold bind.
  destruct (m log) as [[e | a] log1]; simpl in *; [assumption | apply Hk].
Qed.

Lemma mapM_safe {A B} (f : A -> M B) (l : list A) :
  (forall a log, In a l -> raises_routing_error (fst (f a log)) = false) ->
  forall log, raises_routing_error (fst (mapM f l log)) = false.
Proof.
  induction l as [| a l IH]; intros Hf log.
  - reflexivity.
  - simpl. apply bind_safe; [apply Hf; now left |].
    intros b log1. apply bind_safe; [apply IH; intros; apply Hf; now right |].
    reflexivity.
Qed.

(** ** The engine: routing never fails on well-declared branches *)

Section EngineSafety.

Context {St : Type} `{StateSchema St}.

Variable g : CompiledStateGraph St.
Hypothesis bodies_safe : Forall safe_body (nodes (graph_of g)).
Hypothesis branches_safe : Forall safe_branch (branches (graph_of g)).

Lemma run_task_safe task log :
  raises_routing_error (fst (run_task (graph_of g) task log)) = false.
Proof.
  unfold run_task, find_node.
  destruct (find _ (nodes (graph_of g))) as [entry |] eqn:Hfind; [| reflexivity].
  apply find_some in Hfind. destruct Hfind as [Hin _].
  rewrite Forall_forall in bodies_safe. specialize (bodies_safe entry Hin).
  unfold safe_body in bodies_safe. specialize (bodies_safe (snd task) log).
  unfold bind, on_error.
  destruct (snd entry (snd task) log) as [[e | u] log1]; simpl in *;
    [assumption | reflexivity].
Qed.

Lemma route_branch_safe values r b log :
  In b (branches (graph_of g)) ->
  raises_routing_error (fst (route_branch values r b log)) = false.
Proof.
  intro Hin. rewrite Forall_forall in branches_safe.
  destruct (branches_safe b Hin (merge values (ran_update r)) log)
    as [name [Hpath Hmem]].
  unfold route_branch, bind. rewrite Hpath, Hmem. reflexivity.
Qed.

Lemma successors_safe values r log :
  raises_routing_error (fst (successors (graph_of g) values r log)) = false.
Proof.
  unfold successors. apply bind_safe; [| reflexivity].
  apply mapM_safe. intros b log1 Hin.
  apply filter_In in Hin. apply route_branch_safe, Hin.
Qed.

Lemma superstep_safe c log :
  raises_routing_error (fst (superstep (graph_of g) c log)) = false.
Proof.
  unfold superstep. apply bind_safe.
  - apply mapM_safe. intros; apply run_task_safe.
  - intros rans log1. apply bind_safe; [| reflexivity].
    apply mapM_safe. intros; apply successors_safe.
Qed.

Lemma run_safe fuel : forall resuming c tr log,
  raises_routing_error (fst (run g fuel resuming c tr log)) = false.
Proof.
  induction fuel as [| fuel IH]; intros resuming c tr log; simpl.
  - reflexivity.
  - destruct (tasks c); [reflexivity |].
    destruct (negb resuming && should_interrupt g c); [reflexivity |].
    apply bind_safe; [apply superstep_safe | intros; apply IH].
Qed.

Lemma session_safe fuel patches : forall r log,
  raises_routing_error (fst (session g fuel r patches log)) = false.
Proof.
  induction patches as [| patch rest IH]; intros r log; simpl.
  - reflexivity.
  - destruct (outcome r); try reflexivity.
    apply bind_safe; [apply run_safe | intros; apply IH].
Qed.

Lemma conversation_safe fuel input patches log :
  raises_routing_error (fst (conversation g fuel input patches log)) = false.
Proof.
  unfold conversation. apply bind_safe; [apply run_safe |].
  intros; apply session_safe.
Qed.

End EngineSafety.

(** ** The engine: states that a graph cannot tell apart

    [norm] forgets what no node body and no routing function of the graph
    looks at.  Two runs from states with the same normal form then do the
    same thing: same nodes, same updates, same model requests, and states
    that stay equal up to [norm]. *)

Section EngineSimulation.

Context {St : Type} `{StateSchema St}.

Variable norm : St -> St.
Variable g : CompiledStateGraph St.

Hypothesis merge_norm : forall s s' u,
  norm s = norm s' -> norm (merge s u) = norm (merge s' u).
Hypothesis bodies_norm :
  Forall (fun entry : string * (St -> M St) =>
            forall s s' log, norm s = norm s' -> snd entry s log = snd entry s' log)
         (nodes (graph_of g)).
Hypothesis paths_norm :
  Forall (fun b : Branch St =>
            forall s s' log, norm s = norm s' -> path b s log = path b s' log)
         (branches (graph_of g)).

Local Notation "'same_task'" := (alike_task norm).
Local Notation "'same_ran'" := (alike_ran norm).

Lemma agree_eq {A} (x y : (error + A) * list request) :
  x = y -> agree eq x y.
Proof.
  intros <-. destruct x as [[e | a] log]; simpl; split; reflexivity.
Qed.

Lemma mapM_ext {A B} (f f' : A -> M B) (l : list A) :
  (forall a log, In a l -> f a log = f' a log) ->
  forall log, mapM f l log = mapM f' l log.
Proof.
  induction l as [| a l IH]; intros Hf log; [reflexivity |].
  simpl. unfold bind at 1 3. rewrite (Hf a log) by now left.
  destruct (f' a log) as [[e | b] log1]; [reflexivity |].
  unfold bind. rewrite IH by (intros; apply Hf; now right). reflexivity.
Qed.

Lemma checkpoint_sim_inv c c' :
  map_checkpoint norm c = map_checkpoint norm c' ->
  norm (values c) = norm (values c') /\ next c = next c' /\ sends c = sends c'.
Proof.
  destruct c, c'; unfold map_checkpoint; simpl.
  intro Heq; inversion Heq; auto.
Qed.

Lemma tasks_sim c c' :
  map_checkpoint norm c = map_checkpoint norm c' ->
  Forall2 same_task (tasks c) (tasks c').
Proof.
  intro Hc. apply checkpoint_sim_inv in Hc. destruct Hc as [Hv [Hn Hs]].
  unfold tasks. rewrite Hn, Hs. clear Hn Hs. apply Forall2_app.
  - induction (sends c') as [| p l IH]; simpl.
    + constructor.
    + constructor; [split; reflexivity | assumption].
  - induction (next c') as [| n l IH]; simpl.
    + constructor.
    + constructor; [split; [reflexivity | assumption] | assumption].
Qed.

Lemma run_task_sim t t' log :
  same_task t t' ->
  agree same_ran (run_task (graph_of g) t log) (run_task (graph_of g) t' log).
Proof.
  intros [Hname Hinput]. unfold run_task, find_node. rewrite <- Hname.
  destruct (find _ (nodes (graph_of g))) as [entry |] eqn:Hfind.
  - apply find_some in Hfind. destruct Hfind as [Hin _].
    rewrite Forall_forall in bodies_norm.
    pose proof (bodies_norm entry Hin (snd t) (snd t') log Hinput) as Hbody.
    unfold bind, on_error. rewrite <- Hbody.
    destruct (snd entry (snd t) log) as [[e | u] log1]; simpl.
    + split; reflexivity.
    + split; [| reflexivity].
      unfold alike_ran, map_ran; simpl. now rewrite Hinput.
  - simpl. split; [now rewrite Hname | reflexivity].
Qed.

Lemma successors_sim values values' r r' log :
  norm values = norm values' -> same_ran r r' ->
  successors (graph_of g) values r log = successors (graph_of g) values' r' log.
Proof.
  intros Hv Hr. unfold alike_ran, map_ran in Hr.
  assert (Hnode : ran_node r = ran_node r') by (inversion Hr; reflexivity).
  assert (Hupd : ran_update r = ran_update r') by (inversion Hr; reflexivity).
  unfold successors, bind. rewrite <- Hnode.
  rewrite (mapM_ext (route_branch values r) (route_branch values' r')).
  - reflexivity.
  - intros b log1 Hin. apply filter_In in Hin. destruct Hin as [Hin _].
    rewrite Forall_forall in paths_norm.
    unfold route_branch, bind. rewrite <- Hnode, <- Hupd.
    rewrite (paths_norm b Hin (merge values (ran_update r))
               (merge values' (ran_update r)) log1
               (merge_norm _ _ _ Hv)).
    reflexivity.
Qed.

Lemma apply_writes_sim rans rans' :
  Forall2 same_ran rans rans' ->
  forall values values', norm values = norm values' ->
    norm (apply_writes values rans) = norm (apply_writes values' rans').
Proof.
  unfold apply_writes.
  induction 1 as [| r r' rans rans' Hr _ IH]; intros values values' Hv; simpl.
  - assumption.
  - apply IH. unfold alike_ran, map_ran in Hr.
    assert (Hupd : ran_update r = ran_update r') by (inversion Hr; reflexivity).
    rewrite <- Hupd. apply merge_norm, Hv.
Qed.

Lemma same_ran_map rans rans' :
  Forall2 same_ran rans rans' -> map (map_ran norm) rans = map (map_ran norm) rans'.
Proof.
  induction 1 as [| r r' rans rans' Hr _ IH]; simpl; [reflexivity |].
  unfold alike_ran in Hr. now rewrite Hr, IH.
Qed.

Lemma superstep_sim c c' log :
  map_checkpoint norm c = map_checkpoint norm c' ->
  agree (fun x x' => map_step norm (fst x) = map_step norm (fst x')
                     /\ map_checkpoint norm (snd x) = map_checkpoint norm (snd x'))
        (superstep (graph_of g) c log) (superstep (graph_of g) c' log).
Proof.
  intro Hc. pose proof (tasks_sim c c' Hc) as Htasks.
  apply checkpoint_sim_inv in Hc. destruct Hc as [Hv _].
  unfold superstep.
  apply agree_bind with (R := Forall2 same_ran).
  - apply agree_mapM with (R := same_task); [| assumption].
    intros; now apply run_task_sim.
  - intros rans rans' log1 Hrans.
    apply agree_bind with (R := Forall2 eq).
    + apply agree_mapM with (R := same_ran); [| assumption].
      intros r r' log2 Hr. apply agree_eq. now apply successors_sim.
    + intros succ succ' log2 Hsucc.
      assert (succ = succ') as <-.
      { clear - Hsucc. induction Hsucc; congruence. }
      simpl. split; [| reflexivity]. split.
      * unfold map_step; simpl.
        rewrite (same_ran_map _ _ Hrans).
        now rewrite (apply_writes_sim _ _ Hrans _ _ Hv).
      * unfold map_checkpoint; simpl.
        now rewrite (apply_writes_sim _ _ Hrans _ _ Hv).
Qed.

Lemma should_interrupt_sim c c' :
  map_checkpoint norm c = map_checkpoint norm c' ->
  should_interrupt g c = should_interrupt g c'.
Proof.
  intro Hc. apply tasks_sim in Hc. unfold should_interrupt.
  induction Hc as [| t t' l l' [Hname _] _ IH]; simpl; [reflexivity |].
  now rewrite Hname, IH.
Qed.

Lemma run_sim fuel : forall resuming c c' tr tr' log,
  map_checkpoint norm c = map_checkpoint norm c' ->
  map (map_step norm) tr = map (map_step norm) tr' ->
  agree (fun r r' => map_result norm r = map_result norm r')
        (run g fuel resuming c tr log) (run g fuel resuming c' tr' log).
Proof.
  induction fuel as [| fuel IH]; intros resuming c c' tr tr' log Hc Htr; simpl.
  - split; [| reflexivity]. unfold map_result; simpl. now rewrite Hc, Htr.
  - pose proof (tasks_sim c c' Hc) as Htasks.
    rewrite (should_interrupt_sim c c' Hc).
    destruct Htasks as [| t t' l l' _ _].
    + simpl. split; [| reflexivity]. unfold map_result; simpl.
      apply checkpoint_sim_inv in Hc. destruct Hc as [-> _]. now rewrite Htr.
    + destruct (negb resuming && should_interrupt g c').
      * simpl. split; [| reflexivity]. unfold map_result; simpl.
        now rewrite Hc, Htr.
      * eapply agree_bind; [apply superstep_sim, Hc |].
        intros x x' log1 [Hstep Hnext]. apply IH; [assumption |].
        rewrite !map_app; simpl. now rewrite Htr, Hstep.
Qed.

Lemma session_sim fuel patches : forall r r' log,
  map_result norm r = map_result norm r' ->
  agree (fun r r' => map_result norm r = map_result norm r')
        (session g fuel r patches log) (session g fuel r' patches log).
Proof.
  induction patches as [| patch rest IH]; intros r r' log Hr; simpl.
  - split; [assumption | reflexivity].
  - assert (Ho : map_outcome norm (outcome r) = map_outcome norm (outcome r'))
      by (unfold map_result in Hr; inversion Hr; reflexivity).
    assert (Ht : map (map_step norm) (trace r) = map (map_step norm) (trace r'))
      by (unfold map_result in Hr; inversion Hr; reflexivity).
    destruct (outcome r) as [s | h | a], (outcome r') as [s' | h' | a'];
      simpl in Ho; try discriminate;
      try (simpl; split; [assumption | reflexivity]).
    assert (Hh : map_checkpoint norm h = map_checkpoint norm h') by congruence.
    pose proof (checkpoint_sim_inv _ _ Hh) as [Hv [Hn Hs]].
    eapply agree_bind.
    + unfold resume. apply run_sim; [| reflexivity].
      unfold map_checkpoint; simpl. rewrite Hn, Hs.
      now rewrite (merge_norm _ _ patch Hv).
    + intros x x' log1 Hx. apply IH.
      unfold map_result in *; simpl. inversion Hx.
      rewrite !map_app. congruence.
Qed.

Lemma conversation_sim fuel input input' patches log :
  norm input = norm input' ->
  agree (fun r r' => map_result norm r = map_result norm r')
        (conversation g fuel input patches log)
        (conversation g fuel input' patches log).
Proof.
  intro Hin. unfold conversation. eapply agree_bind.
  - unfold invoke. apply run_sim; [| reflexivity].
    unfold map_checkpoint; simpl. now rewrite Hin.
  - intros; now apply session_sim.
Qed.

End EngineSimulation.

(** ** The engine: one superstep, node by node *)

Section EngineSteps.

Context {St : Type} `{StateSchema St}.

Lemma run_unfold (g : CompiledStateGraph St) fuel resuming c tr :
  run g (S fuel) resuming c tr
  = match tasks c with
    | [] => ret {| outcome := Final (values c); trace := tr |}
    | _ :: _ =>
        if negb resuming && should_interrupt g c
        then ret {| outcome := Paused c; trace := tr |}
        else
          sc <- superstep (graph_of g) c ;;
          run g fuel false (snd sc) (tr ++ [fst sc])
    end.
Proof. reflexivity. Qed.

(** A superstep of one node that has no conditional edge. *)
Lemma superstep_single (g : StateGraph St) name body state log :
  find_node g name = Some body ->
  filter (fun b => String.eqb (source b) name) (branches g) = [] ->
  superstep g {| values := state; next := [name]; sends := [] |} log
  = match body state log with
    | (inl e, log') => (inl (NodeExecutionError name e), log')
    | (inr update, log') =>
        (inr ({| ran := [ {| ran_node := name;
                             ran_input := state;
                             ran_update := update |} ];
                 merged := merge state update |},
              {| values := merge state update;
                 next := schedule (static_targets g name);
                 sends := [] |}),
         log')
    end.
Proof.
  intros Hfind Hnone.
  unfold superstep, tasks; simpl. unfold run_task; simpl. rewrite Hfind.
  unfold bind, on_error.
  destruct (body state log) as [[e | update] log']; simpl; [reflexivity |].
  unfold successors; simpl. rewrite Hnone. simpl. unfold bind, ret; simpl.
  now rewrite !app_nil_r.
Qed.

(** A superstep of one node that cannot fail and is followed by one
    conditional edge whose routing function cannot fail either. *)
Lemma superstep_routed (g : StateGraph St) name body route b state log :
  find_node g name = Some (fun state => ret (body state)) ->
  filter (fun b => String.eqb (source b) name) (branches g) = [b] ->
  path b = (fun state => ret (Goto (route state))) ->
  mem (route (merge state (body state))) (path_map b) = true ->
  superstep g {| values := state; next := [name]; sends := [] |} log
  = (inr ({| ran := [ {| ran_node := name;
                         ran_input := state;
                         ran_update := body state |} ];
             merged := merge state (body state) |},
          {| values := merge state (body state);
             next := schedule (static_targets g name
                               ++ [route (merge state (body state))]);
             sends := [] |}),
     log).
Proof.
  intros Hfind Hone Hpath Hmem.
  unfold superstep, tasks; simpl. unfold run_task; simpl. rewrite Hfind.
  unfold bind, on_error, ret; simpl.
  unfold successors; simpl. rewrite Hone. simpl.
  unfold route_branch, bind; simpl. rewrite Hpath. unfold ret; simpl.
  rewrite Hmem. simpl. now rewrite !app_nil_r.
Qed.

(** More fuel does not change a run that has ended or paused. *)
Lemma run_more_fuel (g : CompiledStateGraph St) fuel :
  forall resuming c tr log r log',
    run g fuel resuming c tr log = (inr r, log') ->
    (forall at_, outcome r <> OutOfFuel at_) ->
    forall extra, run g (fuel + extra) resuming c tr log = (inr r, log').
Proof.
  induction fuel as [| fuel IH]; intros resuming c tr log r log' Hrun Hdone extra.
  - simpl in Hrun. inversion Hrun; subst. exfalso. eapply Hdone. reflexivity.
  - change (S fuel + extra) with (S (fuel + extra)).
    rewrite run_unfold in *.
    destruct (tasks c); [assumption |].
    destruct (negb resuming && should_interrupt g c); [assumption |].
    unfold bind in *.
    destruct (superstep (graph_of g) c log) as [[e | sc] log1]; [discriminate |].
    now apply IH.
Qed.

End EngineSteps.

(** ** The workflow, superstep by superstep *)

Section WorkflowSteps.

Variable llm : ChatModel.
Variable format_list : list string -> string.

Local Notation "'B'" := (builder llm format_list).
Local Notation "'G'" := (graph llm format_list).

Lemma schedule_goto (name : string) :
  name <> END -> schedule [name] = [name].
Proof.
  intro Hne. unfold schedule; simpl.
  destruct (String.eqb_spec name END) as [Heq | _]; [contradiction | reflexivity].
Qed.

(** The extraction subgraph used as a node: one run of
    [extract_qualifications] on the shared keys. *)
Lemma subgraph_node_run state log :
  subgraph_node (compile (qua_builder llm) []) state log
  = match extract_qualifications llm (subgraph_input state) log with
    | (inl e, log') =>
        (inl (NodeExecutionError "extract_qualifications" e), log')
    | (inr update, log') =>
        (inr (subgraph_output (merge (subgraph_input state) update)), log')
    end.
Proof.
  unfold subgraph_node, invoke, recursion_limit.
  change (schedule (static_targets (graph_of (compile (qua_builder llm) [])) START))
    with ["extract_qualifications"].
  unfold bind at 1. rewrite run_unfold.
  change (tasks {| values := subgraph_input state;
                   next := ["extract_qualifications"];
                   sends := [] |})
    with [("extract_qualifications", subgraph_input state)].
  change (negb false && should_interrupt (compile (qua_builder llm) []) _)
    with false.
  cbv iota. unfold bind at 1.
  rewrite (superstep_single (qua_builder llm) "extract_qualifications"
             (extract_qualifications llm)) by reflexivity.
  destruct (extract_qualifications llm (subgraph_input state) log)
    as [[e | update] log']; [reflexivity |].
  reflexivity.
Qed.

Lemma step_extract state log :
  superstep B {| values := state; next := ["extract_qualifications"]; sends := [] |} log
  = match subgraph_node (compile (qua_builder llm) []) state log with
    | (inl e, log') =>
        (inl (NodeExecutionError "extract_qualifications" e), log')
    | (inr update, log') =>
        (inr ({| ran := [ {| ran_node := "extract_qualifications";
                             ran_input := state;
                             ran_update := update |} ];
                 merged := merge state update |},
              {| values := merge state update;
                 next := ["human_feedback"];
                 sends := [] |}),
         log')
    end.
Proof.
  now rewrite (superstep_single B "extract_qualifications"
                 (subgraph_node (compile (qua_builder llm) []))).
Qed.

Lemma step_gate state log :
  superstep B {| values := state; next := ["human_feedback"]; sends := [] |} log
  = (inr ({| ran := [ {| ran_node := "human_feedback";
                         ran_input := state;
                         ran_update := no_update |} ];
             merged := state |},
          {| values := state;
             next := [should_human_feedback_continue state];
             sends := [] |}),
     log).
Proof.
  rewrite (superstep_routed B "human_feedback" human_feedback_node
             should_human_feedback_continue
             {| source := "human_feedback";
                path := fun state => ret (Goto (should_human_feedback_continue state));
                path_map := ["extract_qualifications"; "draft_resume"] |});
    try reflexivity.
  - unfold human_feedback_node. rewrite merge_no_update.
    change (static_targets B "human_feedback") with (@nil string).
    rewrite app_nil_l, schedule_goto; [reflexivity |].
    destruct (should_human_feedback_continue_cases state) as [-> | ->]; discriminate.
  - unfold human_feedback_node. rewrite merge_no_update.
    destruct (should_human_feedback_continue_cases state) as [-> | ->]; reflexivity.
Qed.

Lemma step_draft state log :
  superstep B {| values := state; next := ["draft_resume"]; sends := [] |} log
  = match draft_resume llm format_list state log with
    | (inl e, log') => (inl (NodeExecutionError "draft_resume" e), log')
    | (inr update, log') =>
        (inr ({| ran := [ {| ran_node := "draft_resume";
                             ran_input := state;
                             ran_update := update |} ];
                 merged := merge state update |},
              {| values := merge state update;
                 next := ["editor_api"; "editor_critique"];
                 sends := [] |}),
         log')
    end.
Proof.
  now rewrite (superstep_single B "draft_resume" (draft_resume llm format_list)).
Qed.

Lemma step_editors state log :
  superstep B {| values := state;
                 next := ["editor_api"; "editor_critique"];
                 sends := [] |} log
  = match editor_critique llm state log with
    | (inl e, log') => (inl (NodeExecutionError "editor_critique" e), log')
    | (inr update, log') =>
        (inr ({| ran := [ {| ran_node := "editor_api";
                             ran_input := state;
                             ran_update := editor_api state |};
                          {| ran_node := "editor_critique";
                             ran_input := state;
                             ran_update := update |} ];
                 merged := merge (merge state (editor_api state)) update |},
              {| values := merge (merge state (editor_api state)) update;
                 next := ["revise_resume"];
                 sends := [] |}),
         log')
    end.
Proof.
  unfold superstep, tasks; simpl map; simpl app.
  unfold mapM at 1. unfold run_task at 1 2.
  change (find_node B (fst ("editor_api", state)))
    with (Some (fun state : ResumeState => ret (editor_api state))).
  change (find_node B (fst ("editor_critique", state)))
    with (Some (editor_critique llm)).
  unfold bind, on_error, ret; simpl fst; simpl snd.
  destruct (editor_critique llm state log) as [[e | update] log'];
    reflexivity.
Qed.

Lemma step_revise state log :
  superstep B {| values := state; next := ["revise_resume"]; sends := [] |} log
  = (inr ({| ran := [ {| ran_node := "revise_resume";
                         ran_input := state;
                         ran_update := revise_resume state |} ];
             merged := merge state (revise_resume state) |},
          {| values := merge state (revise_resume state);
             next := [should_continue (merge state (revise_resume state))];
             sends := [] |}),
     log).
Proof.
  rewrite (superstep_routed B "revise_resume" revise_resume should_continue
             {| source := "revise_resume";
                path := fun state => ret (Goto (should_continue state));
                path_map := ["draft_resume"; "write_final_draft"] |});
    try reflexivity.
  - change (static_targets B "revise_resume") with (@nil string).
    rewrite app_nil_l, schedule_goto; [reflexivity |].
    destruct (should_continue_cases (merge state (revise_resume state)))
      as [-> | ->]; discriminate.
  - destruct (should_continue_cases (merge state (revise_resume state)))
      as [-> | ->]; reflexivity.
Qed.

Lemma step_final state log :
  superstep B {| values := state; next := ["write_final_draft"]; sends := [] |} log
  = match write_final_draft llm state log with
    | (inl e, log') => (inl (NodeExecutionError "write_final_draft" e), log')
    | (inr update, log') =>
        (inr ({| ran := [ {| ran_node := "write_final_draft";
                             ran_input := state;
                             ran_update := update |} ];
                 merged := merge state update |},
              {| values := merge state update; next := []; sends := [] |}),
         log')
    end.
Proof.
  now rewrite (superstep_single B "write_final_draft" (write_final_draft llm)).
Qed.

End WorkflowSteps.

(** ** The node bodies *)

Section NodeBodies.

Variable llm : ChatModel.
Variable format_list : list string -> string.

Lemma qualification_instructions_embeds :
  exists before between after_ : string,
    forall job_post human_feedback : string,
      qualification_instructions job_post human_feedback
      = (before ++ job_post ++ between ++ human_feedback ++ after_)%string.
Proof.
  unfold qualification_instructions. do 3 eexists. intros. reflexivity.
Qed.

Lemma extract_qualifications_ok state jp log :
  JobQualsState.job_post state = Some jp ->
  extract_qualifications llm state log
  = let msgs :=
      [ SystemMessage
          (qualification_instructions jp
             (get (JobQualsState.human_feedback state) ""));
        HumanMessage "Extract the qualifications now." ] in
    (inr {| JobQualsState.job_post := None;
            JobQualsState.human_feedback := None;
            JobQualsState.qualifications := Some (structured_of llm log msgs) |},
     log ++ [InvokeStructured msgs]).
Proof.
  intro Hjp. unfold extract_qualifications. rewrite Hjp. reflexivity.
Qed.

Lemma draft_resume_ok state jp q ri log :
  job_post state = Some jp ->
  qualifications state = Some q ->
  resume_input state = Some ri ->
  draft_resume llm format_list state log
  = let msgs :=
      [ SystemMessage
          (draft_prompt jp (format_list (required q)) (format_list (preferred q))
             ri (get (resume_draft state) "")
             (join_lines (get (editor_feedback state) []))) ] in
    (inr {| job_post := None;
            human_feedback := None;
            resume_input := None;
            qualifications := None;
            resume_draft := Some (content_of llm log msgs);
            editor_feedback := Some [];
            iteration := None |},
     log ++ [Invoke msgs]).
Proof.
  intros Hjp Hq Hri. unfold draft_resume. rewrite Hjp, Hq, Hri. reflexivity.
Qed.

Lemma editor_critique_ok state draft log :
  resume_draft state = Some draft ->
  editor_critique llm state log
  = let msgs := [ SystemMessage critique_prompt; HumanMessage draft ] in
    (inr {| job_post := None;
            human_feedback := None;
            resume_input := None;
            qualifications := None;
            resume_draft := None;
            editor_feedback := Some [content_of llm log msgs];
            iteration := None |},
     log ++ [Invoke msgs]).
Proof.
  intro Hd. unfold editor_critique. rewrite Hd. reflexivity.
Qed.

Lemma write_final_draft_ok state log :
  write_final_draft llm state log
  = let msgs :=
      [ SystemMessage
          (final_prompt (get (resume_draft state) "")
             (join_lines (get (editor_feedback state) []))) ] in
    (inr {| job_post := None;
            human_feedback := None;
            resume_input := None;
            qualifications := None;
            resume_draft := Some (content_of llm log msgs);
            editor_feedback := None;
            iteration := None |},
     log ++ [Invoke msgs]).
Proof. reflexivity. Qed.

(** What the extraction subgraph writes back leaves the outer state as it
    was, but for the qualifications. *)
Lemma merge_subgraph_output state q :
  merge state
    (subgraph_output
       (merge (subgraph_input state)
          {| JobQualsState.job_post := None;
             JobQualsState.human_feedback := None;
             JobQualsState.qualifications := Some q |}))
  = set_qualifications (Some q) state.
Proof.
  destruct state as [jp hf ri qs rd ef it].
  destruct jp, hf; reflexivity.
Qed.

End NodeBodies.

(** C8: on a state that holds a job post, [extract_qualifications] makes one
    structured call to the model, whose system message is the instruction
    template filled with the job post and the human feedback (empty when
    absent); the update holds the key [qualifications] alone, so merging it
    replaces the qualifications by the model's answer whatever they were; and
    the earlier qualifications play no part in the result. *)
Theorem extract_qualifications_replaces
  (llm : ChatModel) (state : JobQualsState.t) (jp : string) (log : list request) :
  JobQualsState.job_post state = Some jp ->
  let msgs :=
    [ SystemMessage
        (qualification_instructions jp
           (get (JobQualsState.human_feedback state) ""));
      HumanMessage "Extract the qualifications now." ] in
  let answer := structured_of llm log msgs in
  exists update,
    extract_qualifications llm state log
    = (inr update, log ++ [InvokeStructured msgs])
    /\ update = {| JobQualsState.job_post := None;
                   JobQualsState.human_feedback := None;
                   JobQualsState.qualifications := Some answer |}
    /\ merge state update
       = {| JobQualsState.job_post := JobQualsState.job_post state;
            JobQualsState.human_feedback := JobQualsState.human_feedback state;
            JobQualsState.qualifications := Some answer |}
    /\ (forall prior,
          extract_qualifications llm
            {| JobQualsState.job_post := JobQualsState.job_post state;
               JobQualsState.human_feedback := JobQualsState.human_feedback state;
               JobQualsState.qualifications := prior |} log
          = (inr update, log ++ [InvokeStructured msgs]))
    /\ (exists before between after_ : string,
          forall job_post human_feedback : string,
            qualification_instructions job_post human_feedback
            = (before ++ job_post ++ between ++ human_feedback ++ after_)%string).
Proof.
  intros Hjp msgs answer. eexists. split; [| split; [reflexivity | split; [| split]]].
  - rewrite (extract_qualifications_ok llm state jp log Hjp). reflexivity.
  - reflexivity.
  - intro prior. unfold extract_qualifications; simpl. rewrite Hjp. reflexivity.
  - apply qualification_instructions_embeds.
Qed.

Lemma extract_qualifications_replaces_witness :
  JobQualsState.job_post sample_quals_state = Some "Data engineer"
  /\ exists update,
       extract_qualifications sample_llm sample_quals_state []
       = (inr update,
          [ InvokeStructured
              [ SystemMessage
                  (qualification_instructions "Data engineer" "need AWS keyword");
                HumanMessage "Extract the qualifications now." ] ])
       /\ JobQualsState.qualifications update
          = Some {| required := ["AWS"]; preferred := ["Power BI"] |}.
Proof.
  split; [reflexivity |].
  destruct (extract_qualifications_replaces sample_llm sample_quals_state
              "Data engineer" [] eq_refl) as [update [Hrun [Hupd _]]].
  exists update. split; [exact Hrun | rewrite Hupd; reflexivity].
Defined.

(** ** Runs of the workflow *)

Section WorkflowRuns.

Variable llm : ChatModel.
Variable format_list : list string -> string.

Local Notation "'B'" := (builder llm format_list).
Local Notation "'G'" := (graph llm format_list).

Lemma run_one fuel resuming state name tr :
  run G (S fuel) resuming {| values := state; next := [name]; sends := [] |} tr
  = if negb resuming && String.eqb name "human_feedback"
    then ret {| outcome := Paused {| values := state; next := [name]; sends := [] |};
                trace := tr |}
    else
      sc <- superstep B {| values := state; next := [name]; sends := [] |} ;;
      run G fuel false (snd sc) (tr ++ [fst sc]).
Proof.
  rewrite run_unfold. unfold tasks, should_interrupt, mem; simpl.
  now rewrite !orb_false_r.
Qed.

Lemma run_editors fuel resuming state tr :
  run G (S fuel) resuming
    {| values := state; next := ["editor_api"; "editor_critique"]; sends := [] |} tr
  = (sc <- superstep B {| values := state;
                          next := ["editor_api"; "editor_critique"];
                          sends := [] |} ;;
     run G fuel false (snd sc) (tr ++ [fst sc])).
Proof.
  rewrite run_unfold. unfold tasks, should_interrupt, mem; simpl.
  now rewrite andb_false_r.
Qed.

Lemma run_end fuel resuming state tr :
  run G (S fuel) resuming {| values := state; next := []; sends := [] |} tr
  = ret {| outcome := Final state; trace := tr |}.
Proof. reflexivity. Qed.

(** Every invocation on a state with a job post extracts, then pauses. *)
Lemma invoke_pauses state jp fuel log :
  job_post state = Some jp ->
  let msgs :=
    [ SystemMessage (qualification_instructions jp (get (human_feedback state) ""));
      HumanMessage "Extract the qualifications now." ] in
  let answer := structured_of llm log msgs in
  invoke G (S (S fuel)) state log
  = (inr {| outcome :=
              Paused {| values := set_qualifications (Some answer) state;
                        next := ["human_feedback"];
                        sends := [] |};
            trace :=
              [ {| ran := [ {| ran_node := "extract_qualifications";
                               ran_input := state;
                               ran_update :=
                                 {| job_post := job_post state;
                                    human_feedback := human_feedback state;
                                    resume_input := None;
                                    qualifications := Some answer;
                                    resume_draft := None;
                                    editor_feedback := None;
                                    iteration := None |} |} ];
                   merged := set_qualifications (Some answer) state |} ] |},
     log ++ [InvokeStructured msgs]).
Proof.
  intros Hjp msgs answer. unfold invoke.
  change (schedule (static_targets (graph_of G) START))
    with ["extract_qualifications"].
  rewrite run_one. simpl (_ && _). cbv iota.
  unfold bind at 1. rewrite step_extract, subgraph_node_run.
  rewrite (extract_qualifications_ok llm (subgraph_input state) jp log Hjp).
  cbv beta iota zeta. rewrite merge_subgraph_output.
  simpl snd. simpl fst. rewrite run_one. reflexivity.
Qed.

(** Resuming at the gate merges the patch, runs the gate on the merged
    state and goes where the routing function says. *)
Lemma resume_runs_gate fuel state patch log :
  resume G (S fuel)
    {| values := state; next := ["human_feedback"]; sends := [] |} patch log
  = run G fuel false
      {| values := merge state patch;
         next := [should_human_feedback_continue (merge state patch)];
         sends := [] |}
      [ {| ran := [ {| ran_node := "human_feedback";
                       ran_input := merge state patch;
                       ran_update := no_update |} ];
           merged := merge state patch |} ]
      log.
Proof.
  unfold resume. cbv [values next sends].
  rewrite run_one. simpl (_ && _). cbv iota.
  unfold bind. rewrite step_gate. reflexivity.
Qed.

Lemma should_human_feedback_continue_drafts state :
  should_human_feedback_continue state = "draft_resume"
  <-> (human_feedback state = None \/ human_feedback state = Some "ok").
Proof.
  unfold should_human_feedback_continue.
  destruct (human_feedback state) as [text |].
  - destruct (String.eqb_spec text "ok") as [-> | Hne]; split; intro Hx.
    + now right.
    + reflexivity.
    + discriminate.
    + destruct Hx as [Hx | Hx]; [discriminate | inversion Hx; contradiction].
  - split; intro; [now left | reflexivity].
Qed.

(** C2: an invocation on a state that holds a job post runs the extraction
    and then stops before the interruption point [human_feedback]: it
    returns a paused handle that holds the state reached (the input with the
    extracted qualifications) and the node to run next, and the trace shows
    that [human_feedback] has not run.  Resuming that handle with a patch
    merges the patch into the state of the handle and runs [human_feedback]
    first, on the merged state, before going on where its routing function
    says. *)
Theorem invoke_suspends_before_human_feedback state jp fuel log :
  job_post state = Some jp ->
  let msgs :=
    [ SystemMessage (qualification_instructions jp (get (human_feedback state) ""));
      HumanMessage "Extract the qualifications now." ] in
  let answer := structured_of llm log msgs in
  let checkpoint :=
    {| values := set_qualifications (Some answer) state;
       next := ["human_feedback"];
       sends := [] |} in
  (exists step,
      invoke G (S (S fuel)) state log
      = (inr {| outcome := Paused checkpoint; trace := [step] |},
         log ++ [InvokeStructured msgs])
      /\ ran_names step = ["extract_qualifications"]
      /\ merged step = values checkpoint)
  /\ forall patch fuel' log1,
       resume G (S fuel') checkpoint patch log1
       = run G fuel' false
           {| values := merge (values checkpoint) patch;
              next := [should_human_feedback_continue
                         (merge (values checkpoint) patch)];
              sends := [] |}
           [ {| ran := [ {| ran_node := "human_feedback";
                            ran_input := merge (values checkpoint) patch;
                            ran_update := no_update |} ];
                merged := merge (values checkpoint) patch |} ]
           log1.
Proof.
  intros Hjp msgs answer checkpoint. split.
  - eexists. split; [apply (invoke_pauses state jp fuel log Hjp) |].
    split; reflexivity.
  - intros patch fuel' log1. apply resume_runs_gate.
Qed.

(** C4: the routing function after the gate answers [draft_resume] exactly
    when [human_feedback] is absent or is ["ok"], and
    [extract_qualifications] otherwise.  Hence, from an initial state with a
    job post whose [human_feedback] is absent or ["ok"], and resumed with a
    patch that does not say otherwise, the workflow runs the extraction once,
    pauses, runs the gate and then stands at [draft_resume]. *)
Theorem feedback_gate_routes_to_drafting state :
  (should_human_feedback_continue state = "draft_resume"
   <-> (human_feedback state = None \/ human_feedback state = Some "ok"))
  /\ (should_human_feedback_continue state = "extract_qualifications"
      <-> ~ (human_feedback state = None \/ human_feedback state = Some "ok"))
  /\ forall jp patch fuel fuel' log,
       job_post state = Some jp ->
       human_feedback state = None \/ human_feedback state = Some "ok" ->
       human_feedback patch = None \/ human_feedback patch = Some "ok" ->
       exists handle step gate log',
         invoke G (S (S fuel)) state log
         = (inr {| outcome := Paused handle; trace := [step] |}, log')
         /\ ran_names step = ["extract_qualifications"]
         /\ resume G (S fuel') handle patch log'
            = run G fuel' false
                {| values := merge (values handle) patch;
                   next := ["draft_resume"];
                   sends := [] |}
                [gate] log'
         /\ ran_names gate = ["human_feedback"].
Proof.
  split; [apply should_human_feedback_continue_drafts |]. split.
  - rewrite <- should_human_feedback_continue_drafts.
    destruct (should_human_feedback_continue_cases state) as [Hc | Hc];
      rewrite Hc; split; intro Hx; try discriminate; try reflexivity.
    exfalso. now apply Hx.
  - intros jp patch fuel fuel' log Hjp Hstate Hpatch.
    do 4 eexists. split; [apply (invoke_pauses state jp fuel log Hjp) |].
    split; [reflexivity |]. split.
    + rewrite resume_runs_gate.
      match goal with
      | |- context [should_human_feedback_continue ?s] =>
          replace (should_human_feedback_continue s) with "draft_resume"
      end; [reflexivity |].
      symmetry. apply should_human_feedback_continue_drafts.
      destruct state as [jp0 hf ri q rd ef it], patch as [pjp phf pri pq prd pef pit].
      simpl in *. destruct Hpatch as [-> | ->]; simpl; [assumption | now right].
    + reflexivity.
Qed.

End WorkflowRuns.

(** ** Traces *)

Lemma run_trace_app {St : Type} `{StateSchema St} (g : CompiledStateGraph St) fuel :
  forall resuming c tr log,
    run g fuel resuming c tr log
    = match run g fuel resuming c [] log with
      | (inl e, log') => (inl e, log')
      | (inr r, log') =>
          (inr {| outcome := outcome r; trace := tr ++ trace r |}, log')
      end.
Proof.
  induction fuel as [| fuel IH]; intros resuming c tr log.
  - simpl. now rewrite app_nil_r.
  - rewrite !run_unfold.
    destruct (tasks c); [simpl; now rewrite app_nil_r |].
    destruct (negb resuming && should_interrupt g c);
      [simpl; now rewrite app_nil_r |].
    unfold bind.
    destruct (superstep (graph_of g) c log) as [[e | sc] log1]; [reflexivity |].
    rewrite (IH false (snd sc) (tr ++ [fst sc])).
    rewrite (IH false (snd sc) ([] ++ [fst sc])).
    destruct (run g fuel false (snd sc) [] log1) as [[e | r] log2]; [reflexivity |].
    simpl. now rewrite <- app_assoc.
Qed.

Lemma quiet_step (name : string) (input update state : ResumeState) :
  name <> "write_final_draft" -> name <> "revise_resume" ->
  quiet {| ran := [ {| ran_node := name; ran_input := input; ran_update := update |} ];
           merged := state |}.
Proof.
  intros Hfinal Hjoin. split; simpl.
  - intros [Heq | []]. now apply Hfinal.
  - intro Heq. inversion Heq. contradiction.
Qed.

Lemma quiet_count (tr : list (StepLog ResumeState)) :
  Forall quiet tr ->
  count_occ string_dec (concat (map ran_names tr)) "write_final_draft" = 0.
Proof.
  induction 1 as [| step tr [Hnot _] _ IH]; [reflexivity |].
  simpl. rewrite count_occ_app, IH, Nat.add_0_r.
  now apply count_occ_not_In.
Qed.

(** A trace that has finished shows the final draft exactly once. *)
Lemma finished_once_count tr final :
  finished_once tr final ->
  count_occ string_dec (concat (map ran_names tr)) "write_final_draft" = 1.
Proof.
  intros [before [join [last [-> [Hquiet [[Hjoin _] [Hlast _]]]]]]].
  rewrite map_app, concat_app, count_occ_app, (quiet_count _ Hquiet).
  simpl. rewrite Hjoin, Hlast. reflexivity.
Qed.

(** ** The final draft is written once, after the closing join *)

Section WorkflowInvariant.

Variable llm : ChatModel.
Variable format_list : list string -> string.

Local Notation "'B'" := (builder llm format_list).
Local Notation "'G'" := (graph llm format_list).

Lemma run_phase fuel : forall resuming c tr log r log',
  phase tr c ->
  run G fuel resuming c tr log = (inr r, log') ->
  well_phased r.
Proof.
  induction fuel as [| fuel IH]; intros resuming c tr log r log' Hphase Hrun.
  - simpl in Hrun. inversion Hrun; subst. exact I.
  - destruct c as [state nx sd]. destruct Hphase as [Hsd Hphase].
    simpl in Hsd, Hphase. subst sd.
    destruct Hphase
      as [[Hquiet [Hnx | [Hnx | [Hnx | [Hnx | Hnx]]]]]
         | [[before [join [Htr [Hquiet [Hjoin [Hvalues Hnx]]]]]]
           | [Hdone Hnx]]]; subst nx.
    + (* extraction *)
      rewrite run_one in Hrun. simpl (String.eqb _ _) in Hrun.
      rewrite andb_false_r in Hrun. unfold bind in Hrun.
      rewrite step_extract in Hrun.
      destruct (subgraph_node _ state log) as [[e | update] log1];
        [discriminate |].
      apply IH in Hrun; [assumption |].
      split; [reflexivity |]. left. split; [| right; left; reflexivity].
      apply Forall_app. split; [assumption |].
      constructor; [apply quiet_step; discriminate | constructor].
    + (* the gate *)
      rewrite run_one in Hrun. simpl (String.eqb _ _) in Hrun.
      rewrite andb_true_r in Hrun.
      destruct resuming; cbv beta iota delta [negb] in Hrun.
      * unfold bind in Hrun. rewrite step_gate in Hrun.
        apply IH in Hrun; [assumption |].
        split; [reflexivity |]. left. split.
        -- apply Forall_app. split; [assumption |].
           constructor; [apply quiet_step; discriminate | constructor].
        -- simpl.
           destruct (should_human_feedback_continue_cases state) as [-> | ->];
             auto.
      * inversion Hrun; subst. unfold well_phased; simpl. auto.
    + (* drafting *)
      rewrite run_one in Hrun. simpl (String.eqb _ _) in Hrun.
      rewrite andb_false_r in Hrun. unfold bind in Hrun.
      rewrite step_draft in Hrun.
      destruct (draft_resume llm format_list state log) as [[e | update] log1];
        [discriminate |].
      apply IH in Hrun; [assumption |].
      split; [reflexivity |]. left. split; [| do 3 right; left; reflexivity].
      apply Forall_app. split; [assumption |].
      constructor; [apply quiet_step; discriminate | constructor].
    + (* the two editors *)
      rewrite run_editors in Hrun. unfold bind in Hrun.
      rewrite step_editors in Hrun.
      destruct (editor_critique llm state log) as [[e | update] log1];
        [discriminate |].
      apply IH in Hrun; [assumption |].
      split; [reflexivity |]. left. split; [| do 4 right; reflexivity].
      apply Forall_app. split; [assumption |].
      constructor; [| constructor].
      split; simpl.
      -- intros [Heq | [Heq | []]]; discriminate.
      -- intro Heq; discriminate.
    + (* the join *)
      rewrite run_one in Hrun. simpl (String.eqb _ _) in Hrun.
      rewrite andb_false_r in Hrun. unfold bind in Hrun.
      rewrite step_revise in Hrun.
      destruct (should_continue_iff (merge state (revise_resume state)))
        as [[Hfinal _] [Hagain _]].
      destruct (should_continue_cases (merge state (revise_resume state)))
        as [Hc | Hc]; cbv beta iota delta [fst snd] in Hrun; rewrite Hc in Hrun.
      * apply IH in Hrun; [assumption |].
        split; [reflexivity |]. right; left.
        eexists; eexists. split; [reflexivity |].
        split; [assumption |]. split; [| split; reflexivity].
        split; [reflexivity | apply Hfinal, Hc].
      * apply IH in Hrun; [assumption |].
        split; [reflexivity |]. left. split; [| do 2 right; left; reflexivity].
        apply Forall_app. split; [assumption |].
        constructor; [| constructor].
        split; simpl.
        -- intros [Heq | []]; discriminate.
        -- intros _. apply Hagain, Hc.
    + (* the final draft *)
      rewrite run_one in Hrun. simpl (String.eqb _ _) in Hrun.
      rewrite andb_false_r in Hrun. unfold bind in Hrun.
      rewrite step_final, write_final_draft_ok in Hrun.
      cbv beta iota zeta in Hrun.
      apply IH in Hrun; [assumption |].
      split; [reflexivity |]. right; right. split; [| reflexivity].
      subst tr. simpl in Hvalues.
      eexists before, join, _. rewrite <- app_assoc. simpl app.
      split; [reflexivity |]. split; [assumption |]. split; [assumption |].
      split; [reflexivity |]. split; [reflexivity |].
      simpl. rewrite <- Hvalues. apply Hjoin.
    + (* the end *)
      rewrite run_end in Hrun. inversion Hrun; subst. exact Hdone.
Qed.

Lemma session_phase fuel patches : forall r log r2 log2,
  well_phased r ->
  session G fuel r patches log = (inr r2, log2) ->
  well_phased r2.
Proof.
  induction patches as [| patch rest IH]; intros r log r2 log2 Hr Hrun.
  - simpl in Hrun. inversion Hrun; subst. assumption.
  - simpl in Hrun. unfold well_phased in Hr.
    destruct (outcome r) as [final | handle | at_] eqn:Hout.
    + inversion Hrun; subst. unfold well_phased. now rewrite Hout.
    + unfold bind in Hrun.
      destruct (resume G fuel handle patch log) as [[e | r'] log1] eqn:Hres;
        [discriminate |].
      apply IH in Hrun; [assumption |].
      destruct Hr as [Hquiet [Hnext Hsends]].
      unfold resume in Hres.
      eapply run_phase with (resuming := true) (tr := trace r) (log := log).
      2: { rewrite run_trace_app, Hres. reflexivity. }
      split; [assumption |]. left. split; [assumption |]. simpl. auto.
    + inversion Hrun; subst. unfold well_phased. now rewrite Hout.
Qed.

Lemma conversation_phase fuel input patches log r log' :
  conversation G fuel input patches log = (inr r, log') ->
  well_phased r.
Proof.
  unfold conversation, bind. intro Hrun.
  destruct (invoke G fuel input log) as [[e | r0] log0] eqn:Hinv; [discriminate |].
  eapply session_phase; [| exact Hrun].
  unfold invoke in Hinv. eapply run_phase; [| exact Hinv].
  split; [reflexivity |]. left. split; [constructor |]. left. reflexivity.
Qed.

End WorkflowInvariant.

(** ** Drafting always comes to an end *)

Section WorkflowTermination.

Variable llm : ChatModel.
Variable format_list : list string -> string.

Local Notation "'B'" := (builder llm format_list).
Local Notation "'G'" := (graph llm format_list).

(** One round: draft, both editors, join. *)
Lemma drafting_round fuel state jp q ri tr log :
  job_post state = Some jp ->
  qualifications state = Some q ->
  resume_input state = Some ri ->
  exists state' steps log',
    run G (S (S (S fuel))) false
      {| values := state; next := ["draft_resume"]; sends := [] |} tr log
    = run G fuel false
        {| values := state'; next := [should_continue state']; sends := [] |}
        (tr ++ steps) log'
    /\ job_post state' = Some jp
    /\ qualifications state' = Some q
    /\ resume_input state' = Some ri
    /\ iteration state' = Some (get (iteration state) 0 + 1)%Z
    /\ map (fun step => (ran_names step, feedback_count (merged step))) steps
       = [ (["draft_resume"], feedback_count state);
           (["editor_api"; "editor_critique"], feedback_count state + 2);
           (["revise_resume"], feedback_count state + 2) ]
    /\ feedback_count state' = feedback_count state + 2.
Proof.
  intros Hjp Hq Hri. do 3 eexists. split.
  - rewrite run_one. simpl (String.eqb _ _). rewrite andb_false_r.
    unfold bind at 1. rewrite step_draft.
    rewrite (draft_resume_ok llm format_list state jp q ri log Hjp Hq Hri).
    cbv beta iota zeta delta [fst snd].
    rewrite run_editors. unfold bind at 1. rewrite step_editors.
    erewrite editor_critique_ok by reflexivity.
    cbv beta iota zeta delta [fst snd].
    rewrite run_one. simpl (String.eqb _ _). rewrite andb_false_r.
    unfold bind at 1. rewrite step_revise.
    cbv beta iota zeta delta [fst snd].
    rewrite <- !app_assoc. simpl app. reflexivity.
  - simpl. repeat split; try assumption.
    + unfold feedback_count. simpl.
      destruct (editor_feedback state) as [l |]; simpl;
        rewrite ?app_nil_r, ?length_app; simpl; [| reflexivity].
      replace (length l + 1 + 1) with (length l + 2) by lia. reflexivity.
    + unfold feedback_count. simpl.
      destruct (editor_feedback state) as [l |]; simpl;
        rewrite ?app_nil_r, ?length_app; simpl; lia.
Qed.

Lemma rounds_left_one state :
  rounds_left state = 1 -> (1 <= get (iteration state) 0)%Z.
Proof. unfold rounds_left. lia. Qed.

Lemma rounds_left_more state n :
  rounds_left state = S (S n) -> (get (iteration state) 0 <= 0)%Z.
Proof. unfold rounds_left. lia. Qed.

Lemma drafting_completes n : forall state jp q ri tr log,
  rounds_left state = S n ->
  job_post state = Some jp ->
  qualifications state = Some q ->
  resume_input state = Some ri ->
  exists r log' final,
    run G (3 * S n + 2) false
      {| values := state; next := ["draft_resume"]; sends := [] |} tr log
    = (inr r, log')
    /\ outcome r = Final final.
Proof.
  induction n as [| n IH]; intros state jp q ri tr log Hrounds Hjp Hq Hri.
  - destruct (drafting_round 2 state jp q ri tr log Hjp Hq Hri)
      as [state' [steps [log' [Hrun [_ [_ [_ [Hit _]]]]]]]].
    change (3 * 1 + 2) with 5. rewrite Hrun.
    apply rounds_left_one in Hrounds.
    destruct (should_continue_iff state') as [[_ Hfinal] _].
    rewrite Hfinal by (rewrite Hit; simpl; lia).
    rewrite run_one. simpl (String.eqb _ _). rewrite andb_false_r.
    unfold bind. rewrite step_final, write_final_draft_ok.
    cbv beta iota zeta delta [fst snd]. rewrite run_end.
    do 3 eexists. split; reflexivity.
  - destruct (drafting_round (3 * S n + 2) state jp q ri tr log Hjp Hq Hri)
      as [state' [steps [log' [Hrun [Hjp' [Hq' [Hri' [Hit _]]]]]]]].
    replace (3 * S (S n) + 2) with (S (S (S (3 * S n + 2)))) by lia.
    rewrite Hrun.
    pose proof (rounds_left_more _ _ Hrounds) as Hlow.
    destruct (should_continue_iff state') as [_ [_ Hagain]].
    rewrite Hagain by (rewrite Hit; simpl; lia).
    apply (IH state' jp q ri); try assumption.
    unfold rounds_left in *. rewrite Hit. simpl get. lia.
Qed.

Lemma conversation_completes input jp ri patch :
  job_post input = Some jp ->
  resume_input input = Some ri ->
  human_feedback (merge input patch) = None
  \/ human_feedback (merge input patch) = Some "ok" ->
  exists fuel, forall log, exists r log' final,
    conversation G fuel input [patch] log = (inr r, log')
    /\ outcome r = Final final.
Proof.
  intros Hjp Hri Hok.
  assert (Hpos : rounds_left (merge input patch) <> 0)
    by (unfold rounds_left; lia).
  destruct (rounds_left (merge input patch)) as [| n] eqn:Hn; [contradiction |].
  remember (3 * n + 3) as k eqn:Hk.
  exists (S (S (S k))). intro log.
  unfold conversation. unfold bind at 1.
  rewrite (invoke_pauses llm format_list input jp (S k) log Hjp).
  cbv beta iota zeta. simpl session. unfold bind at 1.
  rewrite resume_runs_gate.
  match goal with
  | |- context [should_human_feedback_continue ?s] =>
      replace (should_human_feedback_continue s) with "draft_resume"
  end.
  2: { symmetry. apply should_human_feedback_continue_drafts.
       destruct input, patch; exact Hok. }
  match goal with
  | |- context [run G _ false {| values := ?s; next := _; sends := _ |} ?tr ?l] =>
      destruct (drafting_completes n s
                  (get (job_post patch) jp)
                  (get (qualifications patch)
                     (get (qualifications s) {| required := []; preferred := [] |}))
                  (get (resume_input patch) ri) tr l)
        as [r [log' [final [Hrun Hfinal]]]]
  end.
  - unfold rounds_left in *. destruct input, patch; exact Hn.
  - destruct input, patch; simpl in *. rewrite Hjp.
    destruct job_post1; reflexivity.
  - destruct input, patch; simpl in *. destruct qualifications1; reflexivity.
  - destruct input, patch; simpl in *. rewrite Hri.
    destruct resume_input1; reflexivity.
  - replace (S (S k)) with (3 * S n + 2) by lia.
    rewrite Hrun. simpl. do 3 eexists. split; [reflexivity | exact Hfinal].
Qed.

End WorkflowTermination.

(** C6: a run that ends has written the final draft exactly once, as its last
    superstep, right after the first join that left the counter at 2 or more;
    at every earlier join the counter was below 2.  The node
    [write_final_draft] has one outgoing edge, to the terminal marker, and no
    conditional edge.  And a run does end: on an input with a job post and a
    resume, resumed with a patch that lets the gate through, enough fuel
    gives a final state. *)
Theorem write_final_draft_runs_once
  (llm : ChatModel) (format_list : list string -> string) :
  (forall fuel input patches log r log' final,
      conversation (graph llm format_list) fuel input patches log = (inr r, log') ->
      outcome r = Final final ->
      finished_once (trace r) final
      /\ count_occ string_dec (concat (map ran_names (trace r)))
           "write_final_draft" = 1)
  /\ (forall input jp ri patch,
        job_post input = Some jp ->
        resume_input input = Some ri ->
        human_feedback (merge input patch) = None
        \/ human_feedback (merge input patch) = Some "ok" ->
        exists fuel, forall log, exists r log' final,
          conversation (graph llm format_list) fuel input [patch] log = (inr r, log')
          /\ outcome r = Final final)
  /\ static_targets (builder llm format_list) "write_final_draft" = [END]
  /\ filter (fun b => String.eqb (source b) "write_final_draft")
       (branches (builder llm format_list)) = [].
Proof.
  split; [| split; [| split; reflexivity]].
  - intros fuel input patches log r log' final Hrun Hfinal.
    pose proof (conversation_phase llm format_list _ _ _ _ _ _ Hrun) as Hphase.
    unfold well_phased in Hphase. rewrite Hfinal in Hphase.
    split; [assumption | now apply finished_once_count with (final := final)].
  - intros input jp ri patch. apply conversation_completes.
Qed.

Lemma write_final_draft_runs_once_witness :
  exists fuel r log' final,
    conversation (graph sample_llm sample_format) fuel sample_input [ok_patch] []
    = (inr r, log')
    /\ outcome r = Final final
    /\ finished_once (trace r) final.
Proof.
  destruct (write_final_draft_runs_once sample_llm sample_format)
    as [Hall [Hsome _]].
  destruct (Hsome sample_input "Data engineer" "Five years of SQL" ok_patch
              eq_refl eq_refl (or_intror eq_refl)) as [fuel Hfuel].
  destruct (Hfuel []) as [r [log' [final [Hrun Hfinal]]]].
  exists fuel, r, log', final.
  split; [exact Hrun |]. split; [exact Hfinal |].
  exact (proj1 (Hall fuel _ _ _ _ _ _ Hrun Hfinal)).
Defined.

Lemma invoke_suspends_before_human_feedback_witness :
  job_post sample_input = Some "Data engineer"
  /\ exists step log',
       invoke (graph sample_llm sample_format) 2 sample_input []
       = (inr {| outcome :=
                   Paused
                     {| values :=
                          set_qualifications
                            (Some {| required := ["AWS"]; preferred := ["Power BI"] |})
                            sample_input;
                        next := ["human_feedback"];
                        sends := [] |};
                 trace := [step] |},
          log')
       /\ ran_names step = ["extract_qualifications"].
Proof.
  split; [reflexivity |].
  destruct (invoke_suspends_before_human_feedback sample_llm sample_format
              sample_input "Data engineer" 0 [] eq_refl)
    as [[step [Hrun [Hnames _]]] _].
  exists step. eexists. split; [exact Hrun | exact Hnames].
Defined.

Lemma feedback_gate_routes_to_drafting_witness :
  exists handle step gate log',
    invoke (graph sample_llm sample_format) 2 sample_input []
    = (inr {| outcome := Paused handle; trace := [step] |}, log')
    /\ resume (graph sample_llm sample_format) 1 handle ok_patch log'
       = (inr {| outcome :=
                   OutOfFuel {| values := merge (values handle) ok_patch;
                                next := ["draft_resume"];
                                sends := [] |};
                 trace := [gate] |},
          log').
Proof.
  destruct (feedback_gate_routes_to_drafting sample_llm sample_format sample_input)
    as [_ [_ Hrun]].
  destruct (Hrun "Data engineer" ok_patch 0 0 [] eq_refl
              (or_introl eq_refl) (or_intror eq_refl))
    as [handle [step [gate [log' [Hinvoke [_ [Hresume _]]]]]]].
  exists handle, step, gate, log'. split; [exact Hinvoke | exact Hresume].
Defined.

(** ** The accumulated feedback *)

(** What [draft_resume] returns for [editor_feedback] is the empty list, and
    adding the empty list changes nothing. *)
Lemma draft_resume_keeps_feedback
  (llm : ChatModel) (format_list : list string -> string)
  (state : ResumeState) jp q ri log :
  job_post state = Some jp ->
  qualifications state = Some q ->
  resume_input state = Some ri ->
  exists update log',
    draft_resume llm format_list state log = (inr update, log')
    /\ editor_feedback update = Some []
    /\ editor_feedback (merge state update) = Some (get (editor_feedback state) []).
Proof.
  intros Hjp Hq Hri.
  rewrite (draft_resume_ok llm format_list state jp q ri log Hjp Hq Hri).
  cbv zeta. do 2 eexists. split; [reflexivity |]. split; [reflexivity |].
  simpl. now rewrite app_nil_r.
Qed.

(** Two rounds, step by step: the names of the nodes and the length of the
    feedback list after each superstep, for an input with a job post and a
    resume whose counter starts at 0. *)
Lemma two_round_trace
  (llm : ChatModel) (format_list : list string -> string)
  (input patch : ResumeState) jp ri log :
  job_post input = Some jp ->
  resume_input input = Some ri ->
  human_feedback (merge input patch) = None
  \/ human_feedback (merge input patch) = Some "ok" ->
  get (iteration (merge input patch)) 0%Z = 0%Z ->
  exists r log',
    conversation (graph llm format_list) 10 input [patch] log = (inr r, log')
    /\ map (fun step => (ran_names step, feedback_count (merged step))) (trace r)
       = [ (["extract_qualifications"], feedback_count input);
           (["human_feedback"], feedback_count (merge input patch));
           (["draft_resume"], feedback_count (merge input patch));
           (["editor_api"; "editor_critique"], feedback_count (merge input patch) + 2);
           (["revise_resume"], feedback_count (merge input patch) + 2);
           (["draft_resume"], feedback_count (merge input patch) + 2);
           (["editor_api"; "editor_critique"],
            feedback_count (merge input patch) + 2 + 2);
           (["revise_resume"], feedback_count (merge input patch) + 2 + 2);
           (["write_final_draft"], feedback_count (merge input patch) + 2 + 2) ].
Proof.
  intros Hjp Hri Hok Hzero.
  destruct (conversation (graph llm format_list) 10 input [patch] log)
    as [result log'] eqn:Hrun.
  unfold conversation in Hrun. unfold bind at 1 in Hrun.
  rewrite (invoke_pauses llm format_list input jp 8 log Hjp) in Hrun.
  cbv beta iota zeta delta [session outcome trace] in Hrun.
  unfold bind at 1 in Hrun. rewrite resume_runs_gate in Hrun.
  match type of Hrun with
  | context [set_qualifications (Some ?a) input] =>
      remember (set_qualifications (Some a) input) as start eqn:Hstart
  end.
  assert (Hgate : should_human_feedback_continue (merge start patch) = "draft_resume").
  { apply should_human_feedback_continue_drafts.
    subst start. destruct input, patch; exact Hok. }
  rewrite Hgate in Hrun.
  assert (Hcount0 : feedback_count (merge start patch)
                    = feedback_count (merge input patch))
    by (subst start; destruct input, patch; reflexivity).
  assert (Hiter0 : get (iteration (merge start patch)) 0%Z = 0%Z)
    by (subst start; destruct input, patch; exact Hzero).
  (* first round *)
  match type of Hrun with
  | context [run _ 9 false {| values := _; next := _; sends := _ |} ?tr0 ?l0] =>
      destruct (drafting_round llm format_list 6 (merge start patch)
                  (get (job_post patch) jp)
                  (get (qualifications patch)
                     (get (qualifications start) {| required := []; preferred := [] |}))
                  (get (resume_input patch) ri) tr0 l0)
        as [state1 [steps1 [log1 [Hround1 [Hjp1 [Hq1 [Hri1 [Hit1 [Hsteps1 Hcount1]]]]]]]]]
  end.
  { subst start. destruct input, patch; simpl in *. rewrite Hjp.
    destruct job_post1; reflexivity. }
  { subst start. destruct input, patch; simpl in *.
    destruct qualifications1; reflexivity. }
  { subst start. destruct input, patch; simpl in *. rewrite Hri.
    destruct resume_input1; reflexivity. }
  rewrite Hround1 in Hrun.
  replace (should_continue state1) with "draft_resume" in Hrun
    by (unfold should_continue; rewrite Hit1, Hiter0; reflexivity).
  (* second round *)
  edestruct (drafting_round llm format_list 3 state1)
    as [state2 [steps2 [log2 [Hround2 [_ [_ [_ [Hit2 [Hsteps2 Hcount2]]]]]]]]];
    [exact Hjp1 | exact Hq1 | exact Hri1 |].
  rewrite Hround2 in Hrun.
  replace (should_continue state2) with "write_final_draft" in Hrun
    by (unfold should_continue; rewrite Hit2, Hit1, Hiter0; reflexivity).
  (* the final draft *)
  rewrite run_one in Hrun. simpl (String.eqb _ _) in Hrun.
  rewrite andb_false_r in Hrun. unfold bind at 1 in Hrun.
  rewrite step_final, write_final_draft_ok in Hrun.
  cbv beta iota zeta delta [fst snd] in Hrun.
  rewrite run_end in Hrun. unfold ret in Hrun.
  inversion Hrun; subst result log'. clear Hrun Hround1 Hround2.
  do 2 eexists. split; [reflexivity |].
  cbv [trace]. cbn [map]. rewrite !map_app, Hsteps1, Hsteps2.
  unfold feedback_count in *.
  cbn [map app merged ran_names ran ran_node editor_feedback].
  rewrite Hcount2, Hcount1, Hcount0.
  subst start. destruct input; reflexivity.
Qed.

(** C1, on the sample input resumed with ["ok"], whatever the model answers:
    the run has two rounds; the feedback list is empty after the first
    [draft_resume] and has two entries after the first join, but it still has
    those two entries after the second [draft_resume], and four after the
    second join and when the final draft is written. *)
Theorem editor_feedback_outlives_draft_resume
  (llm : ChatModel) (format_list : list string -> string) :
  exists r log',
    conversation (graph llm format_list) 10 sample_input [ok_patch] []
    = (inr r, log')
    /\ map (fun step => (ran_names step, feedback_count (merged step))) (trace r)
       = [ (["extract_qualifications"], 0);
           (["human_feedback"], 0);
           (["draft_resume"], 0);
           (["editor_api"; "editor_critique"], 2);
           (["revise_resume"], 2);
           (["draft_resume"], 2);
           (["editor_api"; "editor_critique"], 4);
           (["revise_resume"], 4);
           (["write_final_draft"], 4) ].
Proof.
  destruct (two_round_trace llm format_list sample_input ok_patch
              "Data engineer" "Five years of SQL" []
              eq_refl eq_refl (or_intror eq_refl) eq_refl)
    as [r [log' [Hrun Htrace]]].
  exists r, log'. split; [exact Hrun | exact Htrace].
Qed.

(** ** Routing stays inside the declared successors *)

Section WorkflowRouting.

Variable llm : ChatModel.
Variable format_list : list string -> string.

Lemma extract_qualifications_safe state log :
  raises_routing_error (fst (extract_qualifications llm state log)) = false.
Proof.
  unfold extract_qualifications.
  destruct (JobQualsState.job_post state); reflexivity.
Qed.

Lemma qua_builder_bodies_safe :
  Forall safe_body (nodes (graph_of (compile (qua_builder llm) []))).
Proof.
  repeat constructor. intros state log. apply extract_qualifications_safe.
Qed.

Lemma subgraph_node_safe state log :
  raises_routing_error
    (fst (subgraph_node (compile (qua_builder llm) []) state log)) = false.
Proof.
  unfold subgraph_node. apply bind_safe.
  - apply run_safe; [apply qua_builder_bodies_safe | constructor].
  - intros r log1. destruct (outcome r); reflexivity.
Qed.

Lemma builder_bodies_safe :
  Forall safe_body (nodes (graph_of (graph llm format_list))).
Proof.
  repeat constructor; intros state log; simpl snd.
  - apply subgraph_node_safe.
  - unfold draft_resume.
    destruct (job_post state), (qualifications state), (resume_input state);
      reflexivity.
  - unfold editor_critique. destruct (resume_draft state); reflexivity.
Qed.

Lemma builder_branches_safe :
  Forall safe_branch (branches (graph_of (graph llm format_list))).
Proof.
  repeat constructor; intros state log; simpl path; simpl path_map.
  - exists (should_human_feedback_continue state). split; [reflexivity |].
    destruct (should_human_feedback_continue_cases state) as [-> | ->];
      reflexivity.
  - exists (should_continue state). split; [reflexivity |].
    destruct (should_continue_cases state) as [-> | ->]; reflexivity.
Qed.

End WorkflowRouting.

(** C9: both routing functions are total and always name a declared
    successor: [should_human_feedback_continue] answers [draft_resume] or
    [extract_qualifications], [should_continue] answers [write_final_draft] or
    [draft_resume], and these are the sets declared with the two conditional
    edges.  So no invocation and no resumption of the graph ever raises a
    routing error. *)
Theorem routing_stays_in_declared_successors
  (llm : ChatModel) (format_list : list string -> string) :
  (forall state,
      In (should_human_feedback_continue state)
         ["extract_qualifications"; "draft_resume"])
  /\ (forall state,
        In (should_continue state) ["draft_resume"; "write_final_draft"])
  /\ map (fun b => (source b, path_map b)) (branches (builder llm format_list))
     = [ ("human_feedback", ["extract_qualifications"; "draft_resume"]);
         ("revise_resume", ["draft_resume"; "write_final_draft"]) ]
  /\ Forall safe_branch (branches (builder llm format_list))
  /\ (forall fuel input patches log,
        raises_routing_error
          (fst (conversation (graph llm format_list) fuel input patches log))
        = false)
  /\ (forall fuel handle patch log,
        raises_routing_error
          (fst (resume (graph llm format_list) fuel handle patch log))
        = false).
Proof.
  split; [| split; [| split; [reflexivity | split; [| split]]]].
  - intro state.
    destruct (should_human_feedback_continue_cases state) as [-> | ->];
      simpl; auto.
  - intro state.
    destruct (should_continue_cases state) as [-> | ->]; simpl; auto.
  - apply builder_branches_safe.
  - intros. apply conversation_safe;
      [apply builder_bodies_safe | apply builder_branches_safe].
  - intros. unfold resume. apply run_safe;
      [apply builder_bodies_safe | apply builder_branches_safe].
Qed.

(** ** An absent counter is a counter at 0 *)

Lemma read_iteration_inv (s s' : ResumeState) :
  read_iteration s = read_iteration s' ->
  s' = set_iteration (iteration s') s
  /\ get (iteration s) 0%Z = get (iteration s') 0%Z.
Proof.
  destruct s, s'; unfold read_iteration, set_iteration; simpl.
  intro Heq; injection Heq as -> -> -> -> -> -> Hget.
  split; [reflexivity | exact Hget].
Qed.

Lemma read_iteration_merge (s s' u : ResumeState) :
  read_iteration s = read_iteration s' ->
  read_iteration (merge s u) = read_iteration (merge s' u).
Proof.
  destruct s, s', u; unfold read_iteration, set_iteration; simpl.
  intro Heq; inversion Heq; subst.
  destruct iteration2; simpl; congruence.
Qed.

Lemma read_iteration_some (s : ResumeState) i :
  iteration s = Some i -> read_iteration s = s.
Proof.
  destruct s; simpl; intros ->. reflexivity.
Qed.

Lemma ran_names_map_step {St} (f : St -> St) (tr : list (StepLog St)) :
  map ran_names (map (map_step f) tr) = map ran_names tr.
Proof.
  induction tr as [| step tr IH]; [reflexivity |].
  simpl. rewrite IH. f_equal.
  unfold ran_names, map_step; simpl. rewrite map_map. reflexivity.
Qed.

Section WorkflowCounter.

Variable llm : ChatModel.
Variable format_list : list string -> string.

Lemma builder_bodies_read_iteration :
  Forall (fun entry : string * (ResumeState -> M ResumeState) =>
            forall s s' log,
              read_iteration s = read_iteration s' ->
              snd entry s log = snd entry s' log)
         (nodes (graph_of (graph llm format_list))).
Proof.
  repeat apply Forall_cons; try apply Forall_nil;
    intros s s' log Heq; apply read_iteration_inv in Heq;
    destruct Heq as [-> Hget]; simpl snd.
  - reflexivity.
  - reflexivity.
  - reflexivity.
  - reflexivity.
  - reflexivity.
  - unfold revise_resume. simpl iteration. now rewrite Hget.
  - reflexivity.
Qed.

Lemma builder_paths_read_iteration :
  Forall (fun b : Branch ResumeState =>
            forall s s' log,
              read_iteration s = read_iteration s' ->
              path b s log = path b s' log)
         (branches (graph_of (graph llm format_list))).
Proof.
  repeat apply Forall_cons; try apply Forall_nil;
    intros s s' log Heq; apply read_iteration_inv in Heq;
    destruct Heq as [-> Hget]; simpl path.
  - reflexivity.
  - unfold should_continue. simpl iteration. now rewrite Hget.
Qed.

Lemma conversation_read_iteration fuel input input' patches log :
  read_iteration input = read_iteration input' ->
  agree (fun r r' => map_result read_iteration r = map_result read_iteration r')
        (conversation (graph llm format_list) fuel input patches log)
        (conversation (graph llm format_list) fuel input' patches log).
Proof.
  apply conversation_sim.
  - apply read_iteration_merge.
  - apply builder_bodies_read_iteration.
  - apply builder_paths_read_iteration.
Qed.

End WorkflowCounter.

(** C10: when the key [iteration] is missing, [revise_resume] returns
    [iteration = 1] and [should_continue] answers [draft_resume], as they do
    when the counter is 0.  An invocation from a state without the key does
    what the invocation from the same state with the counter at 0 does: the
    same nodes run on the same inputs up to the missing key being read as 0,
    they return the same updates and make the same model requests, both runs
    raise the same exception or neither does, and when they end they end in
    the same final state. *)
Theorem absent_iteration_reads_as_zero
  (llm : ChatModel) (format_list : list string -> string) (state : ResumeState) :
  iteration state = None ->
  iteration (revise_resume state) = Some 1%Z
  /\ revise_resume state = revise_resume (set_iteration (Some 0%Z) state)
  /\ should_continue state = "draft_resume"
  /\ should_continue (set_iteration (Some 0%Z) state) = "draft_resume"
  /\ (forall fuel patches log,
        agree (fun r r' => map_result read_iteration r = map_result read_iteration r')
          (conversation (graph llm format_list) fuel state patches log)
          (conversation (graph llm format_list) fuel
             (set_iteration (Some 0%Z) state) patches log))
  /\ (forall fuel patches log r r' log1 log2 final final',
        conversation (graph llm format_list) fuel state patches log = (inr r, log1) ->
        conversation (graph llm format_list) fuel
          (set_iteration (Some 0%Z) state) patches log = (inr r', log2) ->
        outcome r = Final final ->
        outcome r' = Final final' ->
        final = final'
        /\ log1 = log2
        /\ map ran_names (trace r) = map ran_names (trace r')).
Proof.
  intro Habsent.
  assert (Hsame : read_iteration state = read_iteration (set_iteration (Some 0%Z) state))
    by (destruct state; simpl in *; subst; reflexivity).
  split; [unfold revise_resume; now rewrite Habsent |].
  split; [unfold revise_resume; simpl; now rewrite Habsent |].
  split; [unfold should_continue; now rewrite Habsent |].
  split; [reflexivity |].
  split.
  - intros fuel patches log. now apply conversation_read_iteration.
  - intros fuel patches log r r' log1 log2 final final' Hrun Hrun' Hout Hout'.
    pose proof (conversation_read_iteration llm format_list fuel _ _ patches log Hsame)
      as Hagree.
    rewrite Hrun, Hrun' in Hagree. destruct Hagree as [Hres Hlog].
    pose proof (conversation_phase llm format_list _ _ _ _ _ _ Hrun) as Hphase.
    pose proof (conversation_phase llm format_list _ _ _ _ _ _ Hrun') as Hphase'.
    unfold well_phased in Hphase, Hphase'. rewrite Hout in Hphase.
    rewrite Hout' in Hphase'.
    destruct Hphase as [before [join [last [_ [_ [_ [_ [_ Hfinal]]]]]]]].
    destruct Hphase' as [before' [join' [last' [_ [_ [_ [_ [_ Hfinal']]]]]]]].
    unfold map_result in Hres. injection Hres as Hout_eq Htrace_eq.
    rewrite Hout, Hout' in Hout_eq. cbn [map_outcome] in Hout_eq.
    assert (Hfin : read_iteration final = read_iteration final') by congruence.
    split; [| split; [assumption |]].
    + destruct (iteration final) as [i |] eqn:Hi; [| simpl in Hfinal; lia].
      destruct (iteration final') as [i' |] eqn:Hi'; [| simpl in Hfinal'; lia].
      rewrite (read_iteration_some _ _ Hi), (read_iteration_some _ _ Hi') in Hfin.
      assumption.
    + rewrite <- (ran_names_map_step read_iteration (trace r)), Htrace_eq.
      apply ran_names_map_step.
Qed.

Lemma absent_iteration_reads_as_zero_witness :
  iteration sample_input = None
  /\ iteration (revise_resume sample_input) = Some 1%Z
  /\ should_continue sample_input = "draft_resume".
Proof.
  split; [reflexivity |].
  destruct (absent_iteration_reads_as_zero sample_llm sample_format sample_input
              eq_refl) as [Hone [_ [Hroute _]]].
  split; [exact Hone | exact Hroute].
Defined.

(** ** What the editors are given *)

(** C3 as stated fails: in the run of the sample input resumed with ["ok"],
    [editor_critique] is run on a state that still holds the job post. *)
Lemma editors_receive_isolated_payload_fails :
  ~ editors_receive_isolated_payload sample_llm sample_format.
Proof.
  intro Hclaim.
  destruct (conversation (graph sample_llm sample_format) 4 sample_input
              [ok_patch] []) as [[e | r] log'] eqn:Hrun.
  - vm_compute in Hrun. discriminate Hrun.
  - pose proof Hrun as Hvalue. vm_compute in Hvalue.
    injection Hvalue as Hr Hlog.
    assert (Hin : exists step x,
               In step (trace r) /\ In x (ran step)
               /\ ran_node x = "editor_critique"
               /\ job_post (ran_input x) = Some "Data engineer").
    { rewrite <- Hr. eexists. eexists.
      split; [right; right; right; left; reflexivity |].
      split; [right; left; reflexivity |].
      split; reflexivity. }
    destruct Hin as [step [x [Hstep [Hx [Hnode Hjp]]]]].
    pose proof (Hclaim _ _ _ _ _ _ step x Hrun Hstep Hx (or_intror Hnode)) as Hpayload.
    rewrite Hpayload in Hjp. discriminate Hjp.
Qed.

(** C3, amended: [send_to_editors] does build two packets, one for each
    editor, whose payload is the draft and nothing else; but the graph does
    not use it.  [draft_resume] is followed by two static edges and no
    conditional edge, so the superstep of the editors runs both on the global
    state.  What each editor returns is, all the same, what it would return on
    the isolated payload. *)
Theorem editors_run_on_global_state
  (llm : ChatModel) (format_list : list string -> string)
  (state : ResumeState) (draft : string) (log : list request) :
  resume_draft state = Some draft ->
  send_to_editors state log
  = (inr [ Build_Send "editor_api" (isolated_payload state);
           Build_Send "editor_critique" (isolated_payload state) ],
     log)
  /\ isolated_payload state
     = {| job_post := None;
          human_feedback := None;
          resume_input := None;
          qualifications := None;
          resume_draft := Some draft;
          editor_feedback := None;
          iteration := None |}
  /\ static_targets (builder llm format_list) "draft_resume"
     = ["editor_api"; "editor_critique"]
  /\ filter (fun b => String.eqb (source b) "draft_resume")
       (branches (builder llm format_list)) = []
  /\ (exists step next_checkpoint log',
        superstep (builder llm format_list)
          {| values := state;
             next := ["editor_api"; "editor_critique"];
             sends := [] |} log
        = (inr (step, next_checkpoint), log')
        /\ map (fun x => (ran_node x, ran_input x)) (ran step)
           = [ ("editor_api", state); ("editor_critique", state) ])
  /\ editor_api state = editor_api (isolated_payload state)
  /\ editor_critique llm state log
     = editor_critique llm (isolated_payload state) log.
Proof.
  intro Hdraft.
  split; [unfold send_to_editors, isolated_payload; rewrite Hdraft; reflexivity |].
  split; [unfold isolated_payload; rewrite Hdraft; reflexivity |].
  split; [reflexivity |]. split; [reflexivity |].
  split; [| split; [reflexivity |]].
  - rewrite step_editors, (editor_critique_ok llm state draft log Hdraft).
    cbv zeta. do 3 eexists. split; reflexivity.
  - unfold editor_critique, isolated_payload. simpl resume_draft. reflexivity.
Qed.

Lemma editors_run_on_global_state_witness :
  resume_draft (set_human_feedback (Some "ok")
                  {| job_post := Some "Data engineer";
                     human_feedback := None;
                     resume_input := Some "Five years of SQL";
                     qualifications := None;
                     resume_draft := Some "First draft";
                     editor_feedback := Some [];
                     iteration := None |})
  = Some "First draft"
  /\ exists packets,
       send_to_editors
         (set_human_feedback (Some "ok")
            {| job_post := Some "Data engineer";
               human_feedback := None;
               resume_input := Some "Five years of SQL";
               qualifications := None;
               resume_draft := Some "First draft";
               editor_feedback := Some [];
               iteration := None |}) []
       = (inr packets, [])
       /\ map (@send_node ResumeState) packets = ["editor_api"; "editor_critique"].
Proof.
  split; [reflexivity |].
  destruct (editors_run_on_global_state sample_llm sample_format
              (set_human_feedback (Some "ok")
                 {| job_post := Some "Data engineer";
                    human_feedback := None;
                    resume_input := Some "Five years of SQL";
                    qualifications := None;
                    resume_draft := Some "First draft";
                    editor_feedback := Some [];
                    iteration := None |})
              "First draft" [] eq_refl) as [Hsend _].
  eexists. split; [exact Hsend | reflexivity].
Defined.


(** * Further properties *)

(** ** The keys asked at start-up *)

Lemma setenv_same key value environ_ :
  setenv key value environ_ key = Some value.
Proof. unfold setenv. now rewrite String.eqb_refl. Qed.

Lemma setenv_other key value environ_ name :
  name <> key -> setenv key value environ_ name = environ_ name.
Proof.
  intro Hne. unfold setenv.
  destruct (String.eqb_spec name key); [contradiction | reflexivity].
Qed.

Lemma truthy_some value :
  truthy value = true -> exists text, value = Some text /\ text <> "".
Proof.
  destruct value as [[| c text] |]; simpl; try discriminate.
  intros _. eexists. split; [reflexivity | discriminate].
Qed.

Lemma truthy_typed text : text <> "" -> truthy (Some text) = true.
Proof. destruct text; [contradiction | reflexivity]. Qed.

Lemma set_env_effect
  (getpass : list string -> string -> string) (var : string) (p : Process) :
  (forall name, name <> var ->
     environ (_set_env getpass var p) name = environ p name)
  /\ (exists value, environ (_set_env getpass var p) var = Some value)
  /\ (truthy (environ p var) = true -> _set_env getpass var p = p)
  /\ (truthy (environ p var) = false ->
      prompts (_set_env getpass var p) = prompts p ++ [(var ++ ": ")%string]
      /\ environ (_set_env getpass var p) var
         = Some (getpass (prompts p) (var ++ ": ")%string)).
Proof.
  unfold _set_env.
  destruct (truthy (environ p var)) eqn:Htruthy; simpl.
  - split; [reflexivity |]. split.
    + destruct (truthy_some _ Htruthy) as [text [Hvalue _]]. now exists text.
    + split; [reflexivity | discriminate].
  - split; [intros name Hne; now apply setenv_other |].
    split; [eexists; apply setenv_same |].
    split; [discriminate |]. intros _. split; [reflexivity | apply setenv_same].
Qed.

(** X1: [_set_env] leaves every other variable alone and leaves [var] set.
    A variable that has a non-empty value is kept and nothing is asked; a
    variable that is missing or empty is asked for once, with the prompt
    ["var: "], and takes what was typed. *)
Theorem set_env_sets_only_var
  (getpass : list string -> string -> string) (var : string) (p : Process) :
  (forall name, name <> var ->
     environ (_set_env getpass var p) name = environ p name)
  /\ (exists value, environ (_set_env getpass var p) var = Some value)
  /\ (truthy (environ p var) = true -> _set_env getpass var p = p)
  /\ (truthy (environ p var) = false ->
      prompts (_set_env getpass var p) = prompts p ++ [(var ++ ": ")%string]
      /\ environ (_set_env getpass var p) var
         = Some (getpass (prompts p) (var ++ ": ")%string)).
Proof. apply set_env_effect. Qed.

Lemma set_env_sets_only_var_witness :
  truthy (environ sample_process "LANGSMITH_API_KEY") = false
  /\ environ (_set_env sample_getpass "LANGSMITH_API_KEY" sample_process)
       "LANGSMITH_API_KEY" = Some "sk-typed"
  /\ environ (_set_env sample_getpass "LANGSMITH_API_KEY" sample_process)
       "OPENAI_API_KEY" = Some "sk-set".
Proof.
  destruct (set_env_sets_only_var sample_getpass "LANGSMITH_API_KEY" sample_process)
    as [Hframe [_ [_ Hasked]]].
  split; [reflexivity |]. split.
  - exact (proj2 (Hasked eq_refl)).
  - rewrite (Hframe "OPENAI_API_KEY"); [reflexivity | discriminate].
Defined.

(** X2: a second [_set_env] on the same variable does nothing when the
    variable was set or something was typed; when the variable was missing or
    empty and the empty string is typed, the variable stays empty and the
    second call asks again. *)
Theorem set_env_twice
  (getpass : list string -> string -> string) (var : string) (p : Process) :
  (truthy (environ p var) = true
   \/ getpass (prompts p) (var ++ ": ")%string <> "" ->
   _set_env getpass var (_set_env getpass var p) = _set_env getpass var p)
  /\ (truthy (environ p var) = false ->
      getpass (prompts p) (var ++ ": ")%string = "" ->
      environ (_set_env getpass var p) var = Some ""
      /\ prompts (_set_env getpass var (_set_env getpass var p))
         = prompts p ++ [(var ++ ": ")%string; (var ++ ": ")%string]).
Proof.
  split.
  - intro Hset. unfold _set_env at 2 3.
    destruct (truthy (environ p var)) eqn:Htruthy; simpl.
    + unfold _set_env. now rewrite Htruthy.
    + destruct Hset as [Hset | Htyped]; [discriminate |].
      unfold _set_env; simpl. rewrite setenv_same.
      now rewrite (truthy_typed _ Htyped).
  - intros Hunset Hempty. unfold _set_env. rewrite Hunset; simpl.
    rewrite setenv_same, Hempty; simpl.
    split; [reflexivity |]. now rewrite <- app_assoc.
Qed.

Lemma set_env_twice_witness :
  _set_env sample_getpass "LANGSMITH_API_KEY"
    (_set_env sample_getpass "LANGSMITH_API_KEY" sample_process)
  = _set_env sample_getpass "LANGSMITH_API_KEY" sample_process
  /\ prompts (_set_env (fun _ _ => "") "LANGSMITH_API_KEY"
               (_set_env (fun _ _ => "") "LANGSMITH_API_KEY" sample_process))
     = ["LANGSMITH_API_KEY: "; "LANGSMITH_API_KEY: "].
Proof.
  split.
  - apply (proj1 (set_env_twice sample_getpass "LANGSMITH_API_KEY" sample_process)).
    right. discriminate.
  - exact (proj2 (proj2 (set_env_twice (fun _ _ => "") "LANGSMITH_API_KEY"
                           sample_process) eq_refl eq_refl)).
Defined.

(** X3: once the module is loaded, tracing is switched on and the project is
    named whatever the environment said before, both keys are set, a key that
    had a non-empty value is kept, no other variable has changed, and the user
    was asked once for each key that was missing or empty. *)
Theorem module_setup_environment
  (getpass : list string -> string -> string) (p : Process) :
  environ (module_setup getpass p) "LANGSMITH_TRACING" = Some "true"
  /\ environ (module_setup getpass p) "LANGSMITH_PROJECT" = Some "langchain-academy"
  /\ (exists key, environ (module_setup getpass p) "OPENAI_API_KEY" = Some key)
  /\ (exists key, environ (module_setup getpass p) "LANGSMITH_API_KEY" = Some key)
  /\ (truthy (environ p "OPENAI_API_KEY") = true ->
      environ (module_setup getpass p) "OPENAI_API_KEY" = environ p "OPENAI_API_KEY")
  /\ (truthy (environ p "LANGSMITH_API_KEY") = true ->
      environ (module_setup getpass p) "LANGSMITH_API_KEY"
      = environ p "LANGSMITH_API_KEY")
  /\ (forall name,
        ~ In name ["OPENAI_API_KEY"; "LANGSMITH_API_KEY";
                   "LANGSMITH_TRACING"; "LANGSMITH_PROJECT"] ->
        environ (module_setup getpass p) name = environ p name)
  /\ length (prompts (module_setup getpass p))
     = length (prompts p)
       + (if truthy (environ p "OPENAI_API_KEY") then 0 else 1)
       + (if truthy (environ p "LANGSMITH_API_KEY") then 0 else 1).
Proof.
  unfold module_setup.
  destruct (set_env_effect getpass "OPENAI_API_KEY" p)
    as [Hframe1 [[key1 Hkey1] [Hkept1 Hasked1]]].
  destruct (set_env_effect getpass "LANGSMITH_API_KEY"
              (_set_env getpass "OPENAI_API_KEY" p))
    as [Hframe2 [[key2 Hkey2] [Hkept2 Hasked2]]].
  assert (Hsame : environ (_set_env getpass "OPENAI_API_KEY" p) "LANGSMITH_API_KEY"
                  = environ p "LANGSMITH_API_KEY")
    by (apply Hframe1; discriminate).
  cbv zeta. cbn [environ prompts].
  split; [reflexivity |]. split; [reflexivity |].
  split; [exists key1 |]. 
  { rewrite !setenv_other by discriminate.
    rewrite Hframe2 by discriminate. exact Hkey1. }
  split; [exists key2 |].
  { rewrite !setenv_other by discriminate. exact Hkey2. }
  split.
  { intro Htruthy. rewrite !setenv_other by discriminate.
    rewrite Hframe2 by discriminate. now rewrite Hkept1. }
  split.
  { intro Htruthy. rewrite !setenv_other by discriminate.
    rewrite Hkept2 by (now rewrite Hsame). exact Hsame. }
  split.
  { intros name Hnot. simpl in Hnot.
    rewrite !setenv_other by (intro; apply Hnot; auto).
    rewrite Hframe2 by (intro; apply Hnot; auto).
    apply Hframe1. intro; apply Hnot; auto. }
  rewrite <- Hsame.
  destruct (truthy (environ p "OPENAI_API_KEY")) eqn:H1.
  - rewrite (Hkept1 eq_refl) in *.
    destruct (truthy (environ p "LANGSMITH_API_KEY")) eqn:H2.
    + rewrite (Hkept2 eq_refl). lia.
    + destruct (Hasked2 eq_refl) as [-> _]. rewrite length_app. simpl. lia.
  - destruct (Hasked1 eq_refl) as [Hprompts1 _].
    destruct (truthy (environ (_set_env getpass "OPENAI_API_KEY" p)
                        "LANGSMITH_API_KEY")) eqn:H2.
    + rewrite (Hkept2 eq_refl), Hprompts1, length_app. simpl. lia.
    + destruct (Hasked2 eq_refl) as [-> _].
      rewrite length_app, Hprompts1, length_app. simpl. lia.
Qed.

Lemma module_setup_environment_witness :
  truthy (environ sample_process "OPENAI_API_KEY") = true
  /\ environ (module_setup sample_getpass sample_process) "OPENAI_API_KEY"
     = Some "sk-set"
  /\ environ (module_setup sample_getpass sample_process) "HOME" = None.
Proof.
  destruct (module_setup_environment sample_getpass sample_process)
    as [_ [_ [_ [_ [Hkept [_ [Hframe _]]]]]]].
  split; [reflexivity |]. split.
  - exact (Hkept eq_refl).
  - rewrite Hframe; [reflexivity |].
    simpl. intros [H | [H | [H | [H | []]]]]; discriminate.
Defined.

(** ** What each node does with a state *)

(** X4: [draft_resume] reads [job_post], [qualifications] and [resume_input]
    in this order and raises [KeyError] for the first one that is missing,
    before any request to the model.  When all three are there it makes one
    request, and merging what it returns replaces the draft and changes no
    other field: the feedback list keeps its entries. *)
Theorem draft_resume_outcomes
  (llm : ChatModel) (format_list : list string -> string)
  (state : ResumeState) (log : list request) :
  match job_post state, qualifications state, resume_input state with
  | None, _, _ =>
      draft_resume llm format_list state log = (inl (KeyError "job_post"), log)
  | Some _, None, _ =>
      draft_resume llm format_list state log
      = (inl (KeyError "qualifications"), log)
  | Some _, Some _, None =>
      draft_resume llm format_list state log
      = (inl (KeyError "resume_input"), log)
  | Some jp, Some q, Some ri =>
      let msgs :=
        [ SystemMessage
            (draft_prompt jp (format_list (required q)) (format_list (preferred q))
               ri (get (resume_draft state) "")
               (join_lines (get (editor_feedback state) []))) ] in
      exists update,
        draft_resume llm format_list state log = (inr update, log ++ [Invoke msgs])
        /\ merge state update
           = {| job_post := job_post state;
                human_feedback := human_feedback state;
                resume_input := resume_input state;
                qualifications := qualifications state;
                resume_draft := Some (content_of llm log msgs);
                editor_feedback := Some (get (editor_feedback state) []);
                iteration := iteration state |}
  end.
Proof.
  destruct (job_post state) as [jp |] eqn:Hjp;
    [| unfold draft_resume; rewrite Hjp; reflexivity].
  destruct (qualifications state) as [q |] eqn:Hq;
    [| unfold draft_resume; rewrite Hjp, Hq; reflexivity].
  destruct (resume_input state) as [ri |] eqn:Hri;
    [| unfold draft_resume; rewrite Hjp, Hq, Hri; reflexivity].
  rewrite (draft_resume_ok llm format_list state jp q ri log Hjp Hq Hri).
  cbv zeta. eexists. split; [reflexivity |].
  destruct state; simpl in *. subst. now rewrite app_nil_r.
Qed.

(** X5: [editor_critique] raises [KeyError] for a missing draft before any
    request to the model.  On a state with a draft it makes one request, the
    reviewer's instructions followed by the draft, and merging what it returns
    adds the answer at the end of the feedback list and changes nothing
    else. *)
Theorem editor_critique_outcomes
  (llm : ChatModel) (state : ResumeState) (log : list request) :
  match resume_draft state with
  | None =>
      editor_critique llm state log = (inl (KeyError "resume_draft"), log)
  | Some draft =>
      let msgs := [ SystemMessage critique_prompt; HumanMessage draft ] in
      exists update,
        editor_critique llm state log = (inr update, log ++ [Invoke msgs])
        /\ merge state update
           = {| job_post := job_post state;
                human_feedback := human_feedback state;
                resume_input := resume_input state;
                qualifications := qualifications state;
                resume_draft := resume_draft state;
                editor_feedback :=
                  Some (get (editor_feedback state) [] ++ [content_of llm log msgs]);
                iteration := iteration state |}
  end.
Proof.
  destruct (resume_draft state) as [draft |] eqn:Hdraft;
    [| unfold editor_critique; rewrite Hdraft; reflexivity].
  rewrite (editor_critique_ok llm state draft log Hdraft).
  cbv zeta. eexists. split; [reflexivity |].
  destruct state; simpl in *. now subst.
Qed.

(** X6: the two editors together, merged in the order the graph runs them,
    add two entries at the end of the feedback list: the placeholder of
    [editor_api], then the answer of the model.  Merged in the other order the
    list still gets two entries longer.  No other field changes. *)
Theorem editors_add_two_entries
  (llm : ChatModel) (state : ResumeState) (draft : string) (log : list request) :
  resume_draft state = Some draft ->
  exists critique log',
    editor_critique llm state log = (inr critique, log')
    /\ merge (merge state (editor_api state)) critique
       = {| job_post := job_post state;
            human_feedback := human_feedback state;
            resume_input := resume_input state;
            qualifications := qualifications state;
            resume_draft := resume_draft state;
            editor_feedback :=
              Some (get (editor_feedback state) []
                    ++ [ "[API editor returned no feedback]";
                         content_of llm log
                           [ SystemMessage critique_prompt; HumanMessage draft ] ]);
            iteration := iteration state |}
    /\ feedback_count (merge (merge state critique) (editor_api state))
       = feedback_count state + 2.
Proof.
  intro Hdraft. rewrite (editor_critique_ok llm state draft log Hdraft).
  cbv zeta. do 2 eexists. split; [reflexivity |]. split.
  - destruct state; simpl in *. subst. now rewrite <- app_assoc.
  - unfold feedback_count. simpl. rewrite !length_app. simpl. lia.
Qed.

Lemma editors_add_two_entries_witness :
  resume_draft sample_drafted = Some "First draft"
  /\ exists critique log',
       editor_critique sample_llm sample_drafted [] = (inr critique, log')
       /\ editor_feedback (merge (merge sample_drafted (editor_api sample_drafted))
                             critique)
          = Some ["[API editor returned no feedback]"; "0"].
Proof.
  split; [reflexivity |].
  destruct (editors_add_two_entries sample_llm sample_drafted "First draft" []
              eq_refl) as [critique [log' [Hrun [Hmerged _]]]].
  exists critique, log'. split; [exact Hrun |]. rewrite Hmerged. reflexivity.
Defined.

(** X7: [write_final_draft] never raises, whatever keys the state lacks: it
    makes one request, built from the draft and the joined feedback (both
    empty when absent), and merging what it returns replaces the draft and
    changes no other field. *)
Theorem write_final_draft_always_answers
  (llm : ChatModel) (state : ResumeState) (log : list request) :
  let msgs :=
    [ SystemMessage
        (final_prompt (get (resume_draft state) "")
           (join_lines (get (editor_feedback state) []))) ] in
  exists update,
    write_final_draft llm state log = (inr update, log ++ [Invoke msgs])
    /\ merge state update
       = {| job_post := job_post state;
            human_feedback := human_feedback state;
            resume_input := resume_input state;
            qualifications := qualifications state;
            resume_draft := Some (content_of llm log msgs);
            editor_feedback := editor_feedback state;
            iteration := iteration state |}.
Proof.
  intro msgs. rewrite write_final_draft_ok. cbv zeta. eexists.
  split; [reflexivity |]. destruct state; reflexivity.
Qed.

(** ** Extraction, alone and at the head of the workflow *)

(** X8: without a job post nothing is extracted: [extract_qualifications]
    raises [KeyError] before any request to the model, and an invocation of
    the workflow on such a state fails with that exception, with no request
    made and without reaching the pause. *)
Theorem extraction_needs_job_post
  (llm : ChatModel) (format_list : list string -> string) :
  (forall state log,
      JobQualsState.job_post state = None ->
      extract_qualifications llm state log = (inl (KeyError "job_post"), log))
  /\ (forall state fuel log,
        job_post state = None ->
        exists e,
          invoke (graph llm format_list) (S fuel) state log = (inl e, log)
          /\ root_cause e = KeyError "job_post").
Proof.
  split.
  - intros state log Hnone. unfold extract_qualifications. now rewrite Hnone.
  - intros state fuel log Hnone. unfold invoke.
    change (schedule (static_targets (graph_of (graph llm format_list)) START))
      with ["extract_qualifications"].
    rewrite run_one. simpl (_ && _). cbv iota.
    unfold bind at 1. rewrite step_extract, subgraph_node_run.
    unfold extract_qualifications. simpl JobQualsState.job_post. rewrite Hnone.
    simpl. eexists. split; reflexivity.
Qed.

Lemma extraction_needs_job_post_witness :
  job_post no_update = None
  /\ exists e,
       invoke (graph sample_llm sample_format) 5 no_update [] = (inl e, [])
       /\ root_cause e = KeyError "job_post".
Proof.
  split; [reflexivity |].
  exact (proj2 (extraction_needs_job_post sample_llm sample_format)
           no_update 4 [] eq_refl).
Defined.

(** X9: the extraction graph on its own never pauses: invoked on a state
    with a job post it runs its single node once and ends, with the
    qualifications replaced by the model's answer and the other two fields as
    they were. *)
Theorem extraction_graph_runs_once
  (llm : ChatModel) (state : JobQualsState.t) (jp : string)
  (fuel : nat) (log : list request) :
  JobQualsState.job_post state = Some jp ->
  let msgs :=
    [ SystemMessage
        (qualification_instructions jp
           (get (JobQualsState.human_feedback state) ""));
      HumanMessage "Extract the qualifications now." ] in
  exists step,
    invoke (compile (qua_builder llm) []) (S (S fuel)) state log
    = (inr {| outcome :=
                Final {| JobQualsState.job_post := JobQualsState.job_post state;
                         JobQualsState.human_feedback :=
                           JobQualsState.human_feedback state;
                         JobQualsState.qualifications :=
                           Some (structured_of llm log msgs) |};
              trace := [step] |},
       log ++ [InvokeStructured msgs])
    /\ ran_names step = ["extract_qualifications"].
Proof.
  intros Hjp msgs. unfold invoke.
  change (schedule (static_targets (graph_of (compile (qua_builder llm) [])) START))
    with ["extract_qualifications"].
  rewrite run_unfold.
  change (tasks {| values := state; next := ["extract_qualifications"]; sends := [] |})
    with [("extract_qualifications", state)].
  change (negb false && should_interrupt (compile (qua_builder llm) []) _)
    with false.
  cbv iota. unfold bind at 1.
  rewrite (superstep_single (qua_builder llm) "extract_qualifications"
             (extract_qualifications llm)) by reflexivity.
  rewrite (extract_qualifications_ok llm state jp log Hjp).
  cbv zeta. eexists. split; reflexivity.
Qed.

Lemma extraction_graph_runs_once_witness :
  JobQualsState.job_post sample_quals_state = Some "Data engineer"
  /\ exists step log',
       invoke (compile (qua_builder sample_llm) []) 2 sample_quals_state []
       = (inr {| outcome :=
                   Final {| JobQualsState.job_post := Some "Data engineer";
                            JobQualsState.human_feedback := Some "need AWS keyword";
                            JobQualsState.qualifications :=
                              Some {| required := ["AWS"];
                                      preferred := ["Power BI"] |} |};
                 trace := [step] |},
          log').
Proof.
  split; [reflexivity |].
  destruct (extraction_graph_runs_once sample_llm sample_quals_state
              "Data engineer" 0 [] eq_refl) as [step [Hrun _]].
  exists step. eexists. exact Hrun.
Defined.

(** X10: resuming at the gate with feedback other than ["ok"] sends the
    workflow back to the extraction, which runs once more with that feedback
    in its prompt and replaces the qualifications; the workflow then pauses
    again before the gate, and has drafted nothing. *)
Theorem feedback_triggers_new_extraction
  (llm : ChatModel) (format_list : list string -> string)
  (state patch : ResumeState) (text jp : string) (fuel : nat) (log : list request) :
  human_feedback (merge state patch) = Some text ->
  text <> "ok" ->
  job_post (merge state patch) = Some jp ->
  let msgs :=
    [ SystemMessage (qualification_instructions jp text);
      HumanMessage "Extract the qualifications now." ] in
  exists gate extraction,
    resume (graph llm format_list) (S (S (S fuel)))
      {| values := state; next := ["human_feedback"]; sends := [] |} patch log
    = (inr {| outcome :=
                Paused {| values :=
                            set_qualifications (Some (structured_of llm log msgs))
                              (merge state patch);
                          next := ["human_feedback"];
                          sends := [] |};
              trace := [gate; extraction] |},
       log ++ [InvokeStructured msgs])
    /\ ran_names gate = ["human_feedback"]
    /\ ran_names extraction = ["extract_qualifications"].
Proof.
  intros Hfeedback Hnot_ok Hjp msgs.
  rewrite resume_runs_gate.
  assert (Hroute : should_human_feedback_continue (merge state patch)
                   = "extract_qualifications").
  { unfold should_human_feedback_continue. rewrite Hfeedback.
    destruct (String.eqb_spec text "ok"); [contradiction | reflexivity]. }
  rewrite Hroute.
  rewrite run_one. simpl (_ && _). cbv iota.
  unfold bind at 1. rewrite step_extract, subgraph_node_run.
  rewrite (extract_qualifications_ok llm (subgraph_input (merge state patch)) jp log Hjp).
  cbv beta iota zeta. rewrite merge_subgraph_output.
  change (JobQualsState.human_feedback (subgraph_input (merge state patch)))
    with (human_feedback (merge state patch)).
  rewrite Hfeedback.
  cbv beta iota delta [fst snd]. rewrite run_one.
  do 2 eexists. split; [reflexivity |]. split; reflexivity.
Qed.

Lemma feedback_triggers_new_extraction_witness :
  exists gate extraction log',
    resume (graph sample_llm sample_format) 3
      {| values := sample_input; next := ["human_feedback"]; sends := [] |}
      feedback_patch []
    = (inr {| outcome :=
                Paused {| values :=
                            set_qualifications
                              (Some {| required := ["AWS"]; preferred := ["Power BI"] |})
                              (merge sample_input feedback_patch);
                          next := ["human_feedback"];
                          sends := [] |};
              trace := [gate; extraction] |},
       log').
Proof.
  destruct (feedback_triggers_new_extraction sample_llm sample_format
              sample_input feedback_patch "need AWS keyword" "Data engineer" 0 []
              eq_refl) as [gate [extraction [Hrun _]]];
    [discriminate | reflexivity |].
  exists gate, extraction. eexists. exact Hrun.
Defined.

(** ** How long a run is *)

Section WorkflowCounts.

Variable llm : ChatModel.
Variable format_list : list string -> string.

Local Notation "'G'" := (graph llm format_list).

(** One round makes two requests, takes three supersteps and leaves a draft. *)
Lemma drafting_round_counts fuel state jp q ri tr log :
  job_post state = Some jp ->
  qualifications state = Some q ->
  resume_input state = Some ri ->
  exists state' steps log',
    run G (S (S (S fuel))) false
      {| values := state; next := ["draft_resume"]; sends := [] |} tr log
    = run G fuel false
        {| values := state'; next := [should_continue state']; sends := [] |}
        (tr ++ steps) log'
    /\ job_post state' = Some jp
    /\ qualifications state' = Some q
    /\ resume_input state' = Some ri
    /\ iteration state' = Some (get (iteration state) 0 + 1)%Z
    /\ feedback_count state' = feedback_count state + 2
    /\ (exists draft, resume_draft state' = Some draft)
    /\ length steps = 3
    /\ length log' = length log + 2.
Proof.
  intros Hjp Hq Hri. do 3 eexists. split.
  - rewrite run_one. simpl (String.eqb _ _). rewrite andb_false_r.
    unfold bind at 1. rewrite step_draft.
    rewrite (draft_resume_ok llm format_list state jp q ri log Hjp Hq Hri).
    cbv beta iota zeta delta [fst snd].
    rewrite run_editors. unfold bind at 1. rewrite step_editors.
    erewrite editor_critique_ok by reflexivity.
    cbv beta iota zeta delta [fst snd].
    rewrite run_one. simpl (String.eqb _ _). rewrite andb_false_r.
    unfold bind at 1. rewrite step_revise.
    cbv beta iota zeta delta [fst snd].
    rewrite <- !app_assoc. simpl app. reflexivity.
  - simpl. repeat split; try assumption.
    + unfold feedback_count. simpl.
      destruct (editor_feedback state) as [l |]; simpl;
        rewrite ?app_nil_r, ?length_app; simpl; lia.
    + eexists; reflexivity.
    + rewrite !length_app. simpl. lia.
Qed.

Lemma drafting_completes_counts n : forall state jp q ri tr log,
  rounds_left state = S n ->
  job_post state = Some jp ->
  qualifications state = Some q ->
  resume_input state = Some ri ->
  exists r log' final,
    run G (3 * S n + 2) false
      {| values := state; next := ["draft_resume"]; sends := [] |} tr log
    = (inr r, log')
    /\ outcome r = Final final
    /\ iteration final = Some (get (iteration state) 0 + Z.of_nat (S n))%Z
    /\ feedback_count final = feedback_count state + 2 * S n
    /\ (exists draft, resume_draft final = Some draft)
    /\ length (trace r) = length tr + 3 * S n + 1
    /\ length log' = length log + 2 * S n + 1.
Proof.
  induction n as [| n IH]; intros state jp q ri tr log Hrounds Hjp Hq Hri.
  - destruct (drafting_round_counts 2 state jp q ri tr log Hjp Hq Hri)
      as [state' [steps [log' [Hrun [_ [_ [_ [Hit [Hcount [_ [Hsteps Hlog]]]]]]]]]]].
    change (3 * 1 + 2) with 5. rewrite Hrun.
    apply rounds_left_one in Hrounds.
    destruct (should_continue_iff state') as [[_ Hfinal] _].
    rewrite Hfinal by (rewrite Hit; simpl; lia).
    rewrite run_one. simpl (String.eqb _ _). rewrite andb_false_r.
    unfold bind. rewrite step_final, write_final_draft_ok.
    cbv beta iota zeta delta [fst snd]. rewrite run_end.
    do 3 eexists. split; [reflexivity |]. split; [reflexivity |].
    cbn [trace]. split; [simpl; rewrite Hit; f_equal; lia |].
    split; [unfold feedback_count in *; simpl; lia |].
    split; [eexists; reflexivity |].
    rewrite !length_app, Hsteps, Hlog. simpl. lia.
  - destruct (drafting_round_counts (3 * S n + 2) state jp q ri tr log Hjp Hq Hri)
      as [state' [steps [log' [Hrun [Hjp' [Hq' [Hri' [Hit [Hcount [_ [Hsteps Hlog]]]]]]]]]]].
    replace (3 * S (S n) + 2) with (S (S (S (3 * S n + 2)))) by lia.
    rewrite Hrun.
    pose proof (rounds_left_more _ _ Hrounds) as Hlow.
    destruct (should_continue_iff state') as [_ [_ Hagain]].
    rewrite Hagain by (rewrite Hit; simpl; lia).
    destruct (IH state' jp q ri (tr ++ steps) log') as
      [r [log2 [final [Hrun2 [Hout [Hit2 [Hcount2 [Hdraft [Htrace Hlog2]]]]]]]]];
      try assumption.
    { unfold rounds_left in *. rewrite Hit. simpl get. lia. }
    exists r, log2, final. split; [exact Hrun2 |]. split; [exact Hout |].
    split; [rewrite Hit2, Hit; simpl get; f_equal; lia |].
    split; [lia |]. split; [exact Hdraft |].
    rewrite length_app in Htrace. lia.
Qed.

End WorkflowCounts.

(** X11: a run that is let through the gate on an input with a job post and
    a resume ends after as many rounds as it takes the counter to reach 2 (one
    at least).  With [n] rounds the final counter is the initial one plus [n],
    that is the larger of 2 and the initial counter plus one; the model has
    been asked [2 * n + 2] times (the extraction, a draft and a critique per
    round, the final draft); the run took [3 * n + 3] supersteps; the final
    state holds a draft and [2 * n] more feedback entries than at the gate. *)
Theorem complete_run_counts
  (llm : ChatModel) (format_list : list string -> string)
  (input patch : ResumeState) (jp ri : string) :
  job_post input = Some jp ->
  resume_input input = Some ri ->
  human_feedback (merge input patch) = None
  \/ human_feedback (merge input patch) = Some "ok" ->
  exists fuel, forall log, exists r log' final,
    conversation (graph llm format_list) fuel input [patch] log = (inr r, log')
    /\ outcome r = Final final
    /\ iteration final
       = Some (Z.max 2 (get (iteration (merge input patch)) 0 + 1))%Z
    /\ length log' = length log + 2 * rounds_left (merge input patch) + 2
    /\ length (trace r) = 3 * rounds_left (merge input patch) + 3
    /\ feedback_count final
       = feedback_count (merge input patch) + 2 * rounds_left (merge input patch)
    /\ exists draft, resume_draft final = Some draft.
Proof.
  intros Hjp Hri Hok.
  assert (Hpos : rounds_left (merge input patch) <> 0)
    by (unfold rounds_left; lia).
  destruct (rounds_left (merge input patch)) as [| n] eqn:Hn; [contradiction |].
  remember (3 * n + 3) as k eqn:Hk.
  exists (S (S (S k))). intro log.
  unfold conversation. unfold bind at 1.
  rewrite (invoke_pauses llm format_list input jp (S k) log Hjp).
  cbv beta iota zeta. simpl session. unfold bind at 1.
  rewrite resume_runs_gate.
  match goal with
  | |- context [set_qualifications (Some ?a) input] =>
      remember (set_qualifications (Some a) input) as start eqn:Hstart
  end.
  assert (Hgate : should_human_feedback_continue (merge start patch) = "draft_resume").
  { apply should_human_feedback_continue_drafts.
    subst start. destruct input, patch; exact Hok. }
  rewrite Hgate.
  assert (Hiter : iteration (merge start patch) = iteration (merge input patch))
    by (subst start; destruct input, patch; reflexivity).
  assert (Hcount : feedback_count (merge start patch)
                   = feedback_count (merge input patch))
    by (subst start; destruct input, patch; reflexivity).
  match goal with
  | |- context [run _ _ false {| values := _; next := _; sends := _ |} ?tr0 ?l0] =>
      destruct (drafting_completes_counts llm format_list n (merge start patch)
                  (get (job_post patch) jp)
                  (get (qualifications patch)
                     (get (qualifications start) {| required := []; preferred := [] |}))
                  (get (resume_input patch) ri) tr0 l0)
        as [r [log' [final [Hrun [Hout [Hit [Hfeedback [Hdraft [Htrace Hlog]]]]]]]]]
  end.
  - unfold rounds_left in *. now rewrite Hiter.
  - subst start. destruct input, patch; simpl in *. rewrite Hjp.
    destruct job_post1; reflexivity.
  - subst start. destruct input, patch; simpl in *.
    destruct qualifications1; reflexivity.
  - subst start. destruct input, patch; simpl in *. rewrite Hri.
    destruct resume_input1; reflexivity.
  - replace (S (S k)) with (3 * S n + 2) by lia.
    rewrite Hrun. cbv beta iota. unfold ret.
    do 3 eexists. split; [reflexivity |]. cbn [outcome trace].
    split; [exact Hout |].
    split.
    { rewrite Hit, Hiter. f_equal. unfold rounds_left in Hn. lia. }
    split; [rewrite length_app in Hlog; simpl in Hlog; lia |].
    split; [cbn [app length] in Htrace |- *; lia |].
    split; [rewrite Hfeedback, Hcount; lia | exact Hdraft].
Qed.

Lemma complete_run_counts_witness :
  exists fuel r log' final,
    conversation (graph sample_llm sample_format) fuel sample_input [ok_patch] []
    = (inr r, log')
    /\ outcome r = Final final
    /\ iteration final = Some 2%Z
    /\ length log' = 6
    /\ length (trace r) = 9.
Proof.
  destruct (complete_run_counts sample_llm sample_format sample_input ok_patch
              "Data engineer" "Five years of SQL"
              eq_refl eq_refl (or_intror eq_refl)) as [fuel Hfuel].
  destruct (Hfuel []) as [r [log' [final [Hrun [Hout [Hit [Hlog [Htrace _]]]]]]]].
  exists fuel, r, log', final.
  split; [exact Hrun |]. split; [exact Hout |].
  split; [exact Hit |]. split; [exact Hlog | exact Htrace].
Defined.

(** ** What a run never does *)

Lemma mapM_results {A B} (f : A -> M B) (l : list A) log bs log' :
  mapM f l log = (inr bs, log') ->
  Forall2 (fun a b => exists log1 log2, f a log1 = (inr b, log2)) l bs.
Proof.
  revert log bs. induction l as [| a l IH]; intros log bs Hm.
  - simpl in Hm. inversion Hm. constructor.
  - simpl in Hm. unfold bind at 1 in Hm.
    destruct (f a log) as [[e | b] log1] eqn:Hfa; [discriminate |].
    unfold bind at 1 in Hm.
    destruct (mapM f l log1) as [[e | bs'] log2] eqn:Hrest; [discriminate |].
    inversion Hm; subst. constructor; [now exists log, log1 | eapply IH, Hrest].
Qed.

Lemma Forall2_Forall {A B} (R : A -> B -> Prop) (Q : A -> Prop) (Q' : B -> Prop)
  (l : list A) (l' : list B) :
  (forall a b, Q a -> R a b -> Q' b) ->
  Forall2 R l l' -> Forall Q l -> Forall Q' l'.
Proof.
  intros Hstep Hrel. induction Hrel as [| a b l l' Hab _ IH]; intro Hall.
  - constructor.
  - inversion Hall; subst. constructor; [eapply Hstep; eassumption | now apply IH].
Qed.

Lemma concat_all_nil {A} (ls : list (list A)) :
  Forall (fun l => l = []) ls -> concat ls = [].
Proof.
  induction 1 as [| l ls Hl _ IH]; [reflexivity |].
  simpl. now rewrite Hl, IH.
Qed.

Section EngineInvariant.

Context {St : Type} `{StateSchema St}.

Variable g : CompiledStateGraph St.
Variable P : St -> Prop.

(** Whatever a node returns on a state where [P] holds keeps [P] when it is
    merged; no conditional edge fans out. *)
Hypothesis bodies_keep :
  Forall (fun entry : string * (St -> M St) =>
            forall state log update log',
              P state ->
              snd entry state log = (inr update, log') ->
              forall base, P base -> P (merge base update))
         (nodes (graph_of g)).
Hypothesis branches_safe : Forall safe_branch (branches (graph_of g)).

Lemma run_task_keeps task log r log' :
  P (snd task) ->
  run_task (graph_of g) task log = (inr r, log') ->
  forall base, P base -> P (merge base (ran_update r)).
Proof.
  intros Hinput Hrun. unfold run_task, find_node in Hrun.
  destruct (find _ (nodes (graph_of g))) as [entry |] eqn:Hfind; [| discriminate].
  apply find_some in Hfind. destruct Hfind as [Hin _].
  rewrite Forall_forall in bodies_keep. specialize (bodies_keep entry Hin).
  unfold bind, on_error in Hrun.
  destruct (snd entry (snd task) log) as [[e | update] log1] eqn:Hbody;
    [discriminate |].
  inversion Hrun; subst. simpl. eapply bodies_keep; eassumption.
Qed.

Lemma apply_writes_keeps rans :
  Forall (fun r => forall base, P base -> P (merge base (ran_update r))) rans ->
  forall values, P values -> P (apply_writes values rans).
Proof.
  unfold apply_writes.
  induction 1 as [| r rans Hr _ IH]; intros values Hvalues; simpl; auto.
Qed.

Lemma route_branch_no_sends values r b log res log' :
  In b (branches (graph_of g)) ->
  route_branch values r b log = (inr res, log') ->
  snd res = [].
Proof.
  intros Hin Hroute. rewrite Forall_forall in branches_safe.
  destruct (branches_safe b Hin (merge values (ran_update r)) log)
    as [name [Hpath Hmem]].
  unfold route_branch, bind in Hroute. rewrite Hpath, Hmem in Hroute.
  inversion Hroute; subst. reflexivity.
Qed.

Lemma successors_no_sends values r log res log' :
  successors (graph_of g) values r log = (inr res, log') ->
  snd res = [].
Proof.
  unfold successors, bind. intro Hsucc.
  destruct (mapM (route_branch values r) _ log) as [[e | routed] log1] eqn:Hmap;
    [discriminate |].
  inversion Hsucc; subst. simpl. apply mapM_results in Hmap.
  apply concat_all_nil. rewrite Forall_map.
  eapply Forall2_Forall with (Q := fun b => In b (branches (graph_of g)));
    [| exact Hmap |].
  - intros b res Hin [log2 [log3 Hroute]].
    eapply route_branch_no_sends; eassumption.
  - apply Forall_forall. intros b Hin. apply filter_In in Hin. apply Hin.
Qed.

Lemma superstep_keeps c log step c' log' :
  P (values c) ->
  sends c = [] ->
  superstep (graph_of g) c log = (inr (step, c'), log') ->
  P (values c') /\ merged step = values c' /\ sends c' = [].
Proof.
  intros Hvalues Hsends Hstep. unfold superstep, bind in Hstep.
  destruct (mapM (run_task (graph_of g)) (tasks c) log)
    as [[e | rans] log1] eqn:Hrans; [discriminate |].
  destruct (mapM (successors (graph_of g) (values c)) rans log1)
    as [[e | succ] log2] eqn:Hsucc; [discriminate |].
  inversion Hstep; subst. simpl. split; [| split; [reflexivity |]].
  - apply apply_writes_keeps; [| assumption].
    apply mapM_results in Hrans.
    eapply Forall2_Forall with (Q := fun task => P (snd task));
      [| exact Hrans |].
    + intros task r Htask [log3 [log4 Hrun]].
      eapply run_task_keeps; eassumption.
    + unfold tasks. rewrite Hsends. simpl.
      apply Forall_forall. intros task Hin. apply in_map_iff in Hin.
      destruct Hin as [name [<- _]]. exact Hvalues.
  - apply mapM_results in Hsucc.
    apply concat_all_nil. rewrite Forall_map.
    eapply Forall2_Forall with (Q := fun _ => True); [| exact Hsucc |].
    + intros r res _ [log3 [log4 Hres]].
      eapply successors_no_sends; eassumption.
    + apply Forall_forall. auto.
Qed.

Lemma run_keeps fuel : forall resuming c tr log r log',
  P (values c) ->
  sends c = [] ->
  Forall (fun step => P (merged step)) tr ->
  run g fuel resuming c tr log = (inr r, log') ->
  holds_throughout P r
  /\ (forall handle, outcome r = Paused handle -> sends handle = []).
Proof.
  induction fuel as [| fuel IH]; intros resuming c tr log r log' Hvalues Hsends Htr Hrun.
  - simpl in Hrun. inversion Hrun; subst.
    split; [split; assumption | discriminate].
  - rewrite run_unfold in Hrun. destruct (tasks c).
    + inversion Hrun; subst. split; [split; assumption | discriminate].
    + destruct (negb resuming && should_interrupt g c).
      * inversion Hrun; subst. split; [split; assumption |].
        simpl. intros handle Heq. inversion Heq; subst. assumption.
      * unfold bind in Hrun.
        destruct (superstep (graph_of g) c log) as [[e | [step c']] log1] eqn:Hstep;
          [discriminate |].
        destruct (superstep_keeps _ _ _ _ _ Hvalues Hsends Hstep)
          as [Hvalues' [Hmerged Hsends']].
        eapply IH; [exact Hvalues' | exact Hsends' | | exact Hrun].
        apply Forall_app. split; [assumption |].
        constructor; [| constructor]. simpl. now rewrite Hmerged.
Qed.

Lemma session_keeps fuel patches : forall r log r2 log2,
  Forall (fun patch => forall base, P base -> P (merge base patch)) patches ->
  holds_throughout P r ->
  (forall handle, outcome r = Paused handle -> sends handle = []) ->
  session g fuel r patches log = (inr r2, log2) ->
  holds_throughout P r2.
Proof.
  induction patches as [| patch rest IH]; intros r log r2 log2 Hpatches Hr Hsends Hrun.
  - simpl in Hrun. inversion Hrun; subst. assumption.
  - simpl in Hrun. inversion Hpatches as [| ? ? Hpatch Hrest]; subst.
    destruct (outcome r) as [final | handle | at_] eqn:Hout.
    + inversion Hrun; subst. assumption.
    + unfold bind in Hrun.
      destruct (resume g fuel handle patch log) as [[e | r'] log1] eqn:Hres;
        [discriminate |].
      destruct Hr as [Htrace Hstate]. rewrite Hout in Hstate.
      unfold resume in Hres.
      assert (Hkeeps :
                holds_throughout P {| outcome := outcome r';
                                      trace := trace r ++ trace r' |}
                /\ (forall h,
                      outcome {| outcome := outcome r';
                                 trace := trace r ++ trace r' |} = Paused h ->
                      sends h = [])).
      { eapply run_keeps with (resuming := true) (tr := trace r) (log := log).
        4: { rewrite run_trace_app, Hres. reflexivity. }
        - simpl. apply Hpatch, Hstate.
        - simpl. apply Hsends. reflexivity.
        - assumption. }
      destruct Hkeeps as [Hkeeps Hpaused].
      eapply IH; [exact Hrest | exact Hkeeps | exact Hpaused | exact Hrun].
    + inversion Hrun; subst. assumption.
Qed.

Lemma conversation_keeps fuel input patches log r log' :
  P input ->
  Forall (fun patch => forall base, P base -> P (merge base patch)) patches ->
  conversation g fuel input patches log = (inr r, log') ->
  holds_throughout P r.
Proof.
  intros Hinput Hpatches Hrun. unfold conversation, bind in Hrun.
  destruct (invoke g fuel input log) as [[e | r0] log0] eqn:Hinv; [discriminate |].
  unfold invoke in Hinv.
  assert (Hkeeps : holds_throughout P r0
                   /\ (forall handle, outcome r0 = Paused handle -> sends handle = [])).
  { eapply run_keeps; [| | | exact Hinv].
    - exact Hinput.
    - reflexivity.
    - constructor. }
  destruct Hkeeps as [Hkeeps Hpaused].
  eapply session_keeps; eassumption.
Qed.

End EngineInvariant.

Lemma merge_leaves_inputs (reference base update : ResumeState) :
  leaves_inputs update ->
  same_inputs reference base ->
  same_inputs reference (merge base update).
Proof.
  intros [Hjp Hri] [Hbase_jp Hbase_ri]. unfold same_inputs. simpl.
  now rewrite Hjp, Hri.
Qed.


Lemma builder_keeps_inputs
  (llm : ChatModel) (format_list : list string -> string)
  (reference : ResumeState) :
  Forall (fun entry : string * (ResumeState -> M ResumeState) =>
            forall state log update log',
              same_inputs reference state ->
              snd entry state log = (inr update, log') ->
              forall base, same_inputs reference base ->
                           same_inputs reference (merge base update))
         (nodes (graph_of (graph llm format_list))).
Proof.
  repeat apply Forall_cons; try apply Forall_nil;
    intros state log update log' Hstate Hbody base Hbase; simpl snd in Hbody.
  - rewrite subgraph_node_run in Hbody. unfold extract_qualifications in Hbody.
    simpl JobQualsState.job_post in Hbody.
    destruct (job_post state) as [jp |] eqn:Hjp; [| discriminate].
    inversion Hbody; subst. destruct Hstate as [Hs_jp Hs_ri].
    destruct Hbase as [Hb_jp Hb_ri]. unfold same_inputs. simpl.
    rewrite Hjp, <- Hs_jp, Hjp. auto.
  - inversion Hbody; subst. now apply merge_leaves_inputs.
  - unfold draft_resume in Hbody.
    destruct (job_post state), (qualifications state), (resume_input state);
      try discriminate.
    inversion Hbody; subst. now apply merge_leaves_inputs.
  - inversion Hbody; subst. now apply merge_leaves_inputs.
  - unfold editor_critique in Hbody.
    destruct (resume_draft state); [| discriminate].
    inversion Hbody; subst. now apply merge_leaves_inputs.
  - inversion Hbody; subst. now apply merge_leaves_inputs.
  - inversion Hbody; subst. now apply merge_leaves_inputs.
Qed.

(** X12: no node of the workflow changes the job post or the resume.  In a
    run whose patches leave these two fields alone, they are after every
    superstep, and in the state the run returns, what the caller passed in. *)
Theorem run_keeps_job_post_and_resume
  (llm : ChatModel) (format_list : list string -> string)
  (fuel : nat) (input : ResumeState) (patches : list ResumeState)
  (log : list request) (r : Result ResumeState) (log' : list request) :
  Forall leaves_inputs patches ->
  conversation (graph llm format_list) fuel input patches log = (inr r, log') ->
  holds_throughout (same_inputs input) r.
Proof.
  intros Hpatches Hrun.
  eapply conversation_keeps with (P := same_inputs input); [| | | | exact Hrun].
  - apply builder_keeps_inputs.
  - apply builder_branches_safe.
  - split; reflexivity.
  - eapply Forall_impl; [| exact Hpatches].
    intros patch Hpatch base Hbase. now apply merge_leaves_inputs.
Qed.

Lemma run_keeps_job_post_and_resume_witness :
  exists r log' final,
    conversation (graph sample_llm sample_format) 10 sample_input [ok_patch] []
    = (inr r, log')
    /\ outcome r = Final final
    /\ job_post final = Some "Data engineer"
    /\ resume_input final = Some "Five years of SQL".
Proof.
  destruct (conversation (graph sample_llm sample_format) 10 sample_input
              [ok_patch] []) as [[e | r] log'] eqn:Hrun.
  - vm_compute in Hrun. discriminate Hrun.
  - assert (Hpatches : Forall leaves_inputs [ok_patch])
      by (repeat constructor).
    pose proof (run_keeps_job_post_and_resume sample_llm sample_format 10
                  sample_input [ok_patch] [] r log' Hpatches Hrun) as [_ Hstate].
    destruct (outcome r) as [final | handle | at_] eqn:Hout.
    + exists r, log', final. split; [reflexivity |]. split; [exact Hout |].
      exact Hstate.
    + exfalso. pose proof Hrun as Hvalue. vm_compute in Hvalue.
      injection Hvalue as Hr _. rewrite <- Hr in Hout. discriminate Hout.
    + exfalso. pose proof Hrun as Hvalue. vm_compute in Hvalue.
      injection Hvalue as Hr _. rewrite <- Hr in Hout. discriminate Hout.
Defined.


